(** * Cube state, face turns, validation, encoding and playback of the
      Rubik's cube solver front end (class [RubikCubeSolver] and the
      static helpers of [CubeSolver]).

    The sticker model follows the JavaScript object [this.cube]: six faces
    keyed U, D, F, B, L, R (the insertion order of the constructor), each a
    3x3 array of colour names.  Functions that mutate [this.cube3D] in
    place are state transformers on [cubeState]; every assignment of the
    source is one [set], in the order of the source, so that reads after
    writes see the written value. *)

From Stdlib Require Import ZArith QArith Qround Lia Ascii String.
From stdpp Require Import base list strings pretty.

Local Open Scope string_scope.
Local Open Scope list_scope.
Local Open Scope nat_scope.

(** ** Data model *)

(** Modelled from the spec: the colour palette of the page markup, which
    is not among the sources.  The constructor and [resetCube] write
    ['empty']; [scrambleCube] writes the six names of its [colors] array;
    [colorSquare] writes [this.selectedColor], which is ['white'] or the
    [data-color] of a palette button.  The specification fixes the colours
    to six symbolic values, the keys of [colorMap], so a sticker holds one
    of these six or the unset sentinel. *)
Inductive Color : Set :=
  | white | yellow | red | orange | blue | green | unset.

(** The JavaScript string of a sticker value. *)
Definition colorName (c : Color) : string :=
  match c with
  | white => "white" | yellow => "yellow" | red => "red"
  | orange => "orange" | blue => "blue" | green => "green"
  | unset => "empty"
  end.

#[global] Instance color_eq_dec : EqDecision Color.
Proof. solve_decision. Defined.

(** Keys of [this.cube], in insertion order. *)
Inductive faceName : Set := U | D | F | B | L | R.

#[global] Instance faceName_eq_dec : EqDecision faceName.
Proof. solve_decision. Defined.

(** Array indices: every index the modelled code uses is 0, 1 or 2. *)
Inductive idx : Set := i0 | i1 | i2.

Record row : Set := Row { x0 : Color; x1 : Color; x2 : Color }.
Record face : Set := Face { y0 : row; y1 : row; y2 : row }.
Record cubeState : Set :=
  Cube { fU : face; fD : face; fF : face; fB : face; fL : face; fR : face }.

#[global] Instance row_eq_dec : EqDecision row.
Proof. solve_decision. Defined.

#[global] Instance face_eq_dec : EqDecision face.
Proof. solve_decision. Defined.

#[global] Instance cubeState_eq_dec : EqDecision cubeState.
Proof. solve_decision. Defined.

Definition getCell (r : row) (c : idx) : Color :=
  match c with i0 => x0 r | i1 => x1 r | i2 => x2 r end.

Definition setCell (r : row) (c : idx) (v : Color) : row :=
  match c with
  | i0 => Row v (x1 r) (x2 r)
  | i1 => Row (x0 r) v (x2 r)
  | i2 => Row (x0 r) (x1 r) v
  end.

Definition getRow (f : face) (r : idx) : row :=
  match r with i0 => y0 f | i1 => y1 f | i2 => y2 f end.

Definition setRow (f : face) (r : idx) (v : row) : face :=
  match r with
  | i0 => Face v (y1 f) (y2 f)
  | i1 => Face (y0 f) v (y2 f)
  | i2 => Face (y0 f) (y1 f) v
  end.

Definition getFace (s : cubeState) (n : faceName) : face :=
  match n with
  | U => fU s | D => fD s | F => fF s | B => fB s | L => fL s | R => fR s
  end.

Definition setFace (s : cubeState) (n : faceName) (v : face) : cubeState :=
  match n with
  | U => Cube v (fD s) (fF s) (fB s) (fL s) (fR s)
  | D => Cube (fU s) v (fF s) (fB s) (fL s) (fR s)
  | F => Cube (fU s) (fD s) v (fB s) (fL s) (fR s)
  | B => Cube (fU s) (fD s) (fF s) v (fL s) (fR s)
  | L => Cube (fU s) (fD s) (fF s) (fB s) v (fR s)
  | R => Cube (fU s) (fD s) (fF s) (fB s) (fL s) v
  end.

(** [temp[r][c]] on a copied face. *)
Definition cell (f : face) (r c : idx) : Color := getCell (getRow f r) c.

(** [this.cube3D[n][r][c]] *)
Definition get (s : cubeState) (n : faceName) (r c : idx) : Color :=
  cell (getFace s n) r c.

(** [this.cube3D[n][r][c] = v] *)
Definition set (s : cubeState) (n : faceName) (r c : idx) (v : Color) : cubeState :=
  setFace s n (setRow (getFace s n) r (setCell (getRow (getFace s n) r) c v)).

(** [temp[k]] on the three-element array saved by a quarter turn. *)
Definition item (t : Color * Color * Color) (k : idx) : Color :=
  match k with i0 => fst (fst t) | i1 => snd (fst t) | i2 => snd t end.

(** ** Move engine *)

(* Helper function to rotate a face clockwise *)
Definition rotateFaceClockwise (face : faceName) (s : cubeState) : cubeState :=
  let temp := getFace s face in
  let s := set s face i0 i0 (cell temp i2 i0) in
  let s := set s face i0 i1 (cell temp i1 i0) in
  let s := set s face i0 i2 (cell temp i0 i0) in
  let s := set s face i1 i0 (cell temp i2 i1) in
  let s := set s face i1 i1 (cell temp i1 i1) in
  let s := set s face i1 i2 (cell temp i0 i1) in
  let s := set s face i2 i0 (cell temp i2 i2) in
  let s := set s face i2 i1 (cell temp i1 i2) in
  let s := set s face i2 i2 (cell temp i0 i2) in
  s.

(* Helper function to rotate a face counter-clockwise *)
Definition rotateFaceCounterClockwise (face : faceName) (s : cubeState) : cubeState :=
  let temp := getFace s face in
  let s := set s face i0 i0 (cell temp i0 i2) in
  let s := set s face i0 i1 (cell temp i1 i2) in
  let s := set s face i0 i2 (cell temp i2 i2) in
  let s := set s face i1 i0 (cell temp i0 i1) in
  let s := set s face i1 i1 (cell temp i1 i1) in
  let s := set s face i1 i2 (cell temp i2 i1) in
  let s := set s face i2 i0 (cell temp i0 i0) in
  let s := set s face i2 i1 (cell temp i1 i0) in
  let s := set s face i2 i2 (cell temp i2 i0) in
  s.

(* R move: Right face clockwise *)
Definition rotateR (s : cubeState) : cubeState :=
  let s := rotateFaceClockwise R s in
  (* Rotate adjacent edges *)
  let temp := (get s U i0 i2, get s U i1 i2, get s U i2 i2) in
  let s := set s U i0 i2 (get s F i0 i2) in
  let s := set s U i1 i2 (get s F i1 i2) in
  let s := set s U i2 i2 (get s F i2 i2) in
  let s := set s F i0 i2 (get s D i0 i2) in
  let s := set s F i1 i2 (get s D i1 i2) in
  let s := set s F i2 i2 (get s D i2 i2) in
  let s := set s D i0 i2 (get s B i2 i0) in
  let s := set s D i1 i2 (get s B i1 i0) in
  let s := set s D i2 i2 (get s B i0 i0) in
  let s := set s B i0 i0 (item temp i2) in
  let s := set s B i1 i0 (item temp i1) in
  let s := set s B i2 i0 (item temp i0) in
  s.

(* R' move: Right face counter-clockwise *)
Definition rotateRPrime (s : cubeState) : cubeState :=
  let s := rotateFaceCounterClockwise R s in
  let temp := (get s U i0 i2, get s U i1 i2, get s U i2 i2) in
  let s := set s U i0 i2 (get s B i2 i0) in
  let s := set s U i1 i2 (get s B i1 i0) in
  let s := set s U i2 i2 (get s B i0 i0) in
  let s := set s B i0 i0 (get s D i2 i2) in
  let s := set s B i1 i0 (get s D i1 i2) in
  let s := set s B i2 i0 (get s D i0 i2) in
  let s := set s D i0 i2 (get s F i0 i2) in
  let s := set s D i1 i2 (get s F i1 i2) in
  let s := set s D i2 i2 (get s F i2 i2) in
  let s := set s F i0 i2 (item temp i0) in
  let s := set s F i1 i2 (item temp i1) in
  let s := set s F i2 i2 (item temp i2) in
  s.

(* L move: Left face clockwise *)
Definition rotateL (s : cubeState) : cubeState :=
  let s := rotateFaceClockwise L s in
  let temp := (get s U i0 i0, get s U i1 i0, get s U i2 i0) in
  let s := set s U i0 i0 (get s B i2 i2) in
  let s := set s U i1 i0 (get s B i1 i2) in
  let s := set s U i2 i0 (get s B i0 i2) in
  let s := set s B i0 i2 (get s D i2 i0) in
  let s := set s B i1 i2 (get s D i1 i0) in
  let s := set s B i2 i2 (get s D i0 i0) in
  let s := set s D i0 i0 (get s F i0 i0) in
  let s := set s D i1 i0 (get s F i1 i0) in
  let s := set s D i2 i0 (get s F i2 i0) in
  let s := set s F i0 i0 (item temp i0) in
  let s := set s F i1 i0 (item temp i1) in
  let s := set s F i2 i0 (item temp i2) in
  s.

(* L' move: Left face counter-clockwise *)
Definition rotateLPrime (s : cubeState) : cubeState :=
  let s := rotateFaceCounterClockwise L s in
  let temp := (get s U i0 i0, get s U i1 i0, get s U i2 i0) in
  let s := set s U i0 i0 (get s F i0 i0) in
  let s := set s U i1 i0 (get s F i1 i0) in
  let s := set s U i2 i0 (get s F i2 i0) in
  let s := set s F i0 i0 (get s D i0 i0) in
  let s := set s F i1 i0 (get s D i1 i0) in
  let s := set s F i2 i0 (get s D i2 i0) in
  let s := set s D i0 i0 (get s B i2 i2) in
  let s := set s D i1 i0 (get s B i1 i2) in
  let s := set s D i2 i0 (get s B i0 i2) in
  let s := set s B i0 i2 (item temp i2) in
  let s := set s B i1 i2 (item temp i1) in
  let s := set s B i2 i2 (item temp i0) in
  s.

(* U move: Up face clockwise *)
Definition rotateU (s : cubeState) : cubeState :=
  let s := rotateFaceClockwise U s in
  let temp := (get s F i0 i0, get s F i0 i1, get s F i0 i2) in
  let s := set s F i0 i0 (get s R i0 i0) in
  let s := set s F i0 i1 (get s R i0 i1) in
  let s := set s F i0 i2 (get s R i0 i2) in
  let s := set s R i0 i0 (get s B i0 i0) in
  let s := set s R i0 i1 (get s B i0 i1) in
  let s := set s R i0 i2 (get s B i0 i2) in
  let s := set s B i0 i0 (get s L i0 i0) in
  let s := set s B i0 i1 (get s L i0 i1) in
  let s := set s B i0 i2 (get s L i0 i2) in
  let s := set s L i0 i0 (item temp i0) in
  let s := set s L i0 i1 (item temp i1) in
  let s := set s L i0 i2 (item temp i2) in
  s.

(* U' move: Up face counter-clockwise *)
Definition rotateUPrime (s : cubeState) : cubeState :=
  let s := rotateFaceCounterClockwise U s in
  let temp := (get s F i0 i0, get s F i0 i1, get s F i0 i2) in
  let s := set s F i0 i0 (get s L i0 i0) in
  let s := set s F i0 i1 (get s L i0 i1) in
  let s := set s F i0 i2 (get s L i0 i2) in
  let s := set s L i0 i0 (get s B i0 i0) in
  let s := set s L i0 i1 (get s B i0 i1) in
  let s := set s L i0 i2 (get s B i0 i2) in
  let s := set s B i0 i0 (get s R i0 i0) in
  let s := set s B i0 i1 (get s R i0 i1) in
  let s := set s B i0 i2 (get s R i0 i2) in
  let s := set s R i0 i0 (item temp i0) in
  let s := set s R i0 i1 (item temp i1) in
  let s := set s R i0 i2 (item temp i2) in
  s.

(* D move: Down face clockwise *)
Definition rotateD (s : cubeState) : cubeState :=
  let s := rotateFaceClockwise D s in
  let temp := (get s F i2 i0, get s F i2 i1, get s F i2 i2) in
  let s := set s F i2 i0 (get s L i2 i0) in
  let s := set s F i2 i1 (get s L i2 i1) in
  let s := set s F i2 i2 (get s L i2 i2) in
  let s := set s L i2 i0 (get s B i2 i0) in
  let s := set s L i2 i1 (get s B i2 i1) in
  let s := set s L i2 i2 (get s B i2 i2) in
  let s := set s B i2 i0 (get s R i2 i0) in
  let s := set s B i2 i1 (get s R i2 i1) in
  let s := set s B i2 i2 (get s R i2 i2) in
  let s := set s R i2 i0 (item temp i0) in
  let s := set s R i2 i1 (item temp i1) in
  let s := set s R i2 i2 (item temp i2) in
  s.

(* D' move: Down face counter-clockwise *)
Definition rotateDPrime (s : cubeState) : cubeState :=
  let s := rotateFaceCounterClockwise D s in
  let temp := (get s F i2 i0, get s F i2 i1, get s F i2 i2) in
  let s := set s F i2 i0 (get s R i2 i0) in
  let s := set s F i2 i1 (get s R i2 i1) in
  let s := set s F i2 i2 (get s R i2 i2) in
  let s := set s R i2 i0 (get s B i2 i0) in
  let s := set s R i2 i1 (get s B i2 i1) in
  let s := set s R i2 i2 (get s B i2 i2) in
  let s := set s B i2 i0 (get s L i2 i0) in
  let s := set s B i2 i1 (get s L i2 i1) in
  let s := set s B i2 i2 (get s L i2 i2) in
  let s := set s L i2 i0 (item temp i0) in
  let s := set s L i2 i1 (item temp i1) in
  let s := set s L i2 i2 (item temp i2) in
  s.

(* F move: Front face clockwise *)
Definition rotateF (s : cubeState) : cubeState :=
  let s := rotateFaceClockwise F s in
  let temp := (get s U i2 i0, get s U i2 i1, get s U i2 i2) in
  let s := set s U i2 i0 (get s L i2 i2) in
  let s := set s U i2 i1 (get s L i1 i2) in
  let s := set s U i2 i2 (get s L i0 i2) in
  let s := set s L i0 i2 (get s D i0 i0) in
  let s := set s L i1 i2 (get s D i0 i1) in
  let s := set s L i2 i2 (get s D i0 i2) in
  let s := set s D i0 i0 (get s R i2 i0) in
  let s := set s D i0 i1 (get s R i1 i0) in
  let s := set s D i0 i2 (get s R i0 i0) in
  let s := set s R i0 i0 (item temp i0) in
  let s := set s R i1 i0 (item temp i1) in
  let s := set s R i2 i0 (item temp i2) in
  s.

(* F' move: Front face counter-clockwise *)
Definition rotateFPrime (s : cubeState) : cubeState :=
  let s := rotateFaceCounterClockwise F s in
  let temp := (get s U i2 i0, get s U i2 i1, get s U i2 i2) in
  let s := set s U i2 i0 (get s R i0 i0) in
  let s := set s U i2 i1 (get s R i1 i0) in
  let s := set s U i2 i2 (get s R i2 i0) in
  let s := set s R i0 i0 (get s D i0 i2) in
  let s := set s R i1 i0 (get s D i0 i1) in
  let s := set s R i2 i0 (get s D i0 i0) in
  let s := set s D i0 i0 (get s L i0 i2) in
  let s := set s D i0 i1 (get s L i1 i2) in
  let s := set s D i0 i2 (get s L i2 i2) in
  let s := set s L i0 i2 (item temp i2) in
  let s := set s L i1 i2 (item temp i1) in
  let s := set s L i2 i2 (item temp i0) in
  s.

(* B move: Back face clockwise *)
Definition rotateB (s : cubeState) : cubeState :=
  let s := rotateFaceClockwise B s in
  let temp := (get s U i0 i0, get s U i0 i1, get s U i0 i2) in
  let s := set s U i0 i0 (get s R i0 i2) in
  let s := set s U i0 i1 (get s R i1 i2) in
  let s := set s U i0 i2 (get s R i2 i2) in
  let s := set s R i0 i2 (get s D i2 i2) in
  let s := set s R i1 i2 (get s D i2 i1) in
  let s := set s R i2 i2 (get s D i2 i0) in
  let s := set s D i2 i0 (get s L i0 i0) in
  let s := set s D i2 i1 (get s L i1 i0) in
  let s := set s D i2 i2 (get s L i2 i0) in
  let s := set s L i0 i0 (item temp i2) in
  let s := set s L i1 i0 (item temp i1) in
  let s := set s L i2 i0 (item temp i0) in
  s.

(* B' move: Back face counter-clockwise *)
Definition rotateBPrime (s : cubeState) : cubeState :=
  let s := rotateFaceCounterClockwise B s in
  let temp := (get s U i0 i0, get s U i0 i1, get s U i0 i2) in
  let s := set s U i0 i0 (get s L i2 i0) in
  let s := set s U i0 i1 (get s L i1 i0) in
  let s := set s U i0 i2 (get s L i0 i0) in
  let s := set s L i0 i0 (get s D i2 i2) in
  let s := set s L i1 i0 (get s D i2 i1) in
  let s := set s L i2 i0 (get s D i2 i0) in
  let s := set s D i2 i0 (get s R i2 i2) in
  let s := set s D i2 i1 (get s R i1 i2) in
  let s := set s D i2 i2 (get s R i0 i2) in
  let s := set s R i0 i2 (item temp i0) in
  let s := set s R i1 i2 (item temp i1) in
  let s := set s R i2 i2 (item temp i2) in
  s.

(** [switch (move) { case 'R': ... }]: strict string comparison against the
    eighteen case labels in source order; any other value of [move] falls
    through the switch and leaves the cube untouched.  The trailing
    [sync3DCube] only repaints the page. *)
Definition performCubeMove (move : string) (s : cubeState) : cubeState :=
  if String.eqb move "R" then rotateR s
  else if String.eqb move "R'" then rotateRPrime s
  else if String.eqb move "R2" then rotateR (rotateR s)
  else if String.eqb move "L" then rotateL s
  else if String.eqb move "L'" then rotateLPrime s
  else if String.eqb move "L2" then rotateL (rotateL s)
  else if String.eqb move "U" then rotateU s
  else if String.eqb move "U'" then rotateUPrime s
  else if String.eqb move "U2" then rotateU (rotateU s)
  else if String.eqb move "D" then rotateD s
  else if String.eqb move "D'" then rotateDPrime s
  else if String.eqb move "D2" then rotateD (rotateD s)
  else if String.eqb move "F" then rotateF s
  else if String.eqb move "F'" then rotateFPrime s
  else if String.eqb move "F2" then rotateF (rotateF s)
  else if String.eqb move "B" then rotateB s
  else if String.eqb move "B'" then rotateBPrime s
  else if String.eqb move "B2" then rotateB (rotateB s)
  else s.

(** ** Notation helpers ([CubeSolver] statics) *)

(** The last character of a string, if any. *)
Fixpoint lastChar (s : string) : option ascii :=
  match s with
  | EmptyString => None
  | String a EmptyString => Some a
  | String _ rest => lastChar rest
  end.

(** [s.endsWith(c)] for a one-character [c]. *)
Definition endsWith (s : string) (c : ascii) : bool :=
  match lastChar s with
  | Some a => Ascii.eqb a c
  | None => false
  end.

(** [s.slice(0, -1)]: the string without its last character. *)
Fixpoint sliceInit (s : string) : string :=
  match s with
  | EmptyString => EmptyString
  | String a EmptyString => EmptyString
  | String a rest => String a (sliceInit rest)
  end.

Definition invertMove (move : string) : string :=
  if endsWith move "'"%char then sliceInit move
  else if endsWith move "2"%char then move
  else move +:+ "'".

(** The tokens accepted by [isValidMove], i.e. by the pattern
    [^[RLUDFB]['2]?$]: a face letter followed by nothing, a quote or a 2. *)
Definition faceLetters : list string := ["R"; "L"; "U"; "D"; "F"; "B"].
Definition modifiers : list string := [""; "'"; "2"].

Definition isValidMove (move : string) : bool :=
  match move with
  | String a rest =>
      bool_decide (String a EmptyString ∈ faceLetters)
      && (String.eqb rest "" || String.eqb rest "'" || String.eqb rest "2")
  | EmptyString => false
  end.

Definition validMoves : list string :=
  m ← faceLetters; x ← modifiers; [m +:+ x].

(** The token of the clockwise quarter turn of a face. *)
Definition faceToken (f : faceName) : string :=
  match f with
  | U => "U" | D => "D" | F => "F" | B => "B" | L => "L" | R => "R"
  end.

(** [n] successive applications of one token. *)
Fixpoint repeatMove (n : nat) (move : string) (s : cubeState) : cubeState :=
  match n with
  | O => s
  | S k => repeatMove k move (performCubeMove move s)
  end.

Definition uniformFace (c : Color) : face :=
  Face (Row c c c) (Row c c c) (Row c c c).

(** The cube as the constructor builds it: every sticker ['empty']. *)
Definition emptyCube : cubeState :=
  Cube (uniformFace unset) (uniformFace unset) (uniformFace unset)
       (uniformFace unset) (uniformFace unset) (uniformFace unset).

(** A solved cube in the colour convention of [colorMap]. *)
Definition solvedCube : cubeState :=
  Cube (uniformFace white) (uniformFace yellow) (uniformFace blue)
       (uniformFace green) (uniformFace orange) (uniformFace red).

(** ** Application state *)

(** The fields of [RubikCubeSolver] that the modelled methods read or
    write.  [cube] is the painted (editor) state and [cube3D] the working
    state that moves act on; [JSON.parse(JSON.stringify(...))] makes an
    independent copy, which for immutable values is the value itself. *)
Record app : Set := App {
  cube : cubeState;
  cube3D : cubeState;
  solutionSteps : list string;
  currentStep : Z;
  isPlaying : bool
}.

Definition withCube (a : app) (c : cubeState) : app :=
  App c (cube3D a) (solutionSteps a) (currentStep a) (isPlaying a).
Definition withCube3D (a : app) (c : cubeState) : app :=
  App (cube a) c (solutionSteps a) (currentStep a) (isPlaying a).
Definition withSolutionSteps (a : app) (l : list string) : app :=
  App (cube a) (cube3D a) l (currentStep a) (isPlaying a).
Definition withCurrentStep (a : app) (n : Z) : app :=
  App (cube a) (cube3D a) (solutionSteps a) n (isPlaying a).
Definition withIsPlaying (a : app) (b : bool) : app :=
  App (cube a) (cube3D a) (solutionSteps a) (currentStep a) b.

(** The state the constructor leaves behind. *)
Definition initialApp : app := App emptyCube emptyCube [] 0%Z false.

Definition copyTo3DCube (a : app) : app := withCube3D a (cube a).

(** [performCubeMove] as a method: it acts on [this.cube3D]. *)
Definition performCubeMoveM (move : string) (a : app) : app :=
  withCube3D a (performCubeMove move (cube3D a)).

(** [this.performCubeMove(this.solutionSteps[i])].  An index outside the
    array reads [undefined], which matches no case label. *)
Definition performStepAt (i : nat) (a : app) : app :=
  match solutionSteps a !! i with
  | Some move => performCubeMoveM move a
  | None => a
  end.

Definition stopPlaying (a : app) : app := withIsPlaying a false.

(** [updateStepDisplay] repaints the step controls; its only effect on the
    modelled fields is the [stopPlaying] of the branch
    [currentStep === totalSteps], reached when [currentStep] is not 0. *)
Definition updateStepDisplay (a : app) : app :=
  let totalSteps := Z.of_nat (length (solutionSteps a)) in
  if (currentStep a =? 0)%Z then a
  else if (currentStep a =? totalSteps)%Z then stopPlaying a
  else a.

Definition clearSolution (a : app) : app :=
  let a := withSolutionSteps a [] in
  let a := withCurrentStep a 0%Z in
  let a := copyTo3DCube a in
  stopPlaying a.

Definition displaySolution (solution : list string) (a : app) : app :=
  let a := withSolutionSteps a solution in
  let a := withCurrentStep a 0%Z in
  let a := copyTo3DCube a in
  if (0 <? length solution) then updateStepDisplay a else a.

(** ** Solution playback *)

Definition goToStep (stepNumber : Z) (a : app) : app :=
  if ((0 <=? stepNumber)%Z && (stepNumber <=? Z.of_nat (length (solutionSteps a)))%Z)
  then
    (* Reset 3D cube to initial state *)
    let a := copyTo3DCube a in
    (* Apply all moves up to the target step *)
    let a := foldl (fun a i => performStepAt i a) a (seq 0 (Z.to_nat stepNumber)) in
    let a := withCurrentStep a stepNumber in
    updateStepDisplay a
  else a.

Definition previousStep (a : app) : app :=
  if (0 <? currentStep a)%Z then
    let a := withCurrentStep a (currentStep a - 1)%Z in
    updateStepDisplay a
  else a.

Definition nextStep (a : app) : app :=
  if (currentStep a <? Z.of_nat (length (solutionSteps a)))%Z then
    (* Perform the actual cube transformation *)
    let a := performStepAt (Z.to_nat (currentStep a)) a in
    let a := withCurrentStep a (currentStep a + 1)%Z in
    updateStepDisplay a
  else a.

(** The moves of a list applied in order by the move engine. *)
Definition applyMoves (moves : list string) (s : cubeState) : cubeState :=
  foldl (fun s move => performCubeMove move s) s moves.

(** ** Validation *)

Definition rowValues (r : row) : list Color := [x0 r; x1 r; x2 r].

Definition faceValues (f : face) : list Color :=
  rowValues (y0 f) ++ rowValues (y1 f) ++ rowValues (y2 f).

(** [Object.keys(this.cube)]: the insertion order of the constructor. *)
Definition cubeKeys : list faceName := [U; D; F; B; L; R].

(** The stickers in the order the nested [forEach] of
    [Object.values(this.cube)] visits them. *)
Definition stickers (c : cubeState) : list Color :=
  n ← cubeKeys; faceValues (getFace c n).

(** [colorCounts[color] = (colorCounts[color] || 0) + 1] on an object whose
    own keys are colour names: an existing key keeps its place, a new key is
    added last, so the list is [Object.entries(colorCounts)]. *)
Fixpoint bump (color : Color) (colorCounts : list (Color * nat)) : list (Color * nat) :=
  match colorCounts with
  | [] => [(color, 1)]
  | (k, n) :: rest =>
      if decide (k = color) then (k, n + 1) :: rest
      else (k, n) :: bump color rest
  end.

(** One visit of the counting loop on [(colorCounts, totalSquares)]. *)
Definition countStep (acc : list (Color * nat) * nat) (color : Color)
  : list (Color * nat) * nat :=
  if decide (color ≠ unset) then (bump color (fst acc), snd acc + 1) else acc.

Definition countColors (c : cubeState) : list (Color * nat) * nat :=
  foldl countStep ([], 0) (stickers c).

(** The object [{ valid, message }] returned by [isValidCube], kept as the
    branch taken together with the values its message interpolates. *)
Inductive validation : Set :=
  | Valid
  | IncompleteError (totalSquares : nat)
  | ColorCountError (color : Color) (count : nat)
  | ColorVarietyError (found : nat).

Definition valid (v : validation) : bool :=
  match v with Valid => true | _ => false end.

Definition message (v : validation) : string :=
  match v with
  | Valid => "Valid cube configuration."
  | IncompleteError n =>
      "Cube must have all 54 squares colored. Currently has " +:+ pretty n +:+ "."
  | ColorCountError k n =>
      "Color '" +:+ colorName k +:+ "' appears " +:+ pretty n +:+ " times, should be 9."
  | ColorVarietyError n =>
      "Cube must have exactly 6 colors, found " +:+ pretty n +:+ "."
  end.

Definition isValidCube (c : cubeState) : validation :=
  let '(colorCounts, totalSquares) := countColors c in
  (* Check if all 54 squares are colored *)
  if decide (totalSquares ≠ 54) then IncompleteError totalSquares
  else
    (* Check if each color appears exactly 9 times *)
    match find (fun e : Color * nat => bool_decide (snd e ≠ 9)) colorCounts with
    | Some (color, count) => ColorCountError color count
    | None =>
        (* Check if we have exactly 6 different colors *)
        if decide (length colorCounts ≠ 6)
        then ColorVarietyError (length colorCounts)
        else Valid
    end.

(** *** Validation as the specification words it *)

(** Number of stickers that are set. *)
Definition totalSet (c : cubeState) : nat :=
  length (filter (fun k => k ≠ unset) (stickers c)).

(** Number of stickers of one colour. *)
Definition colorCount (c : cubeState) (k : Color) : nat :=
  length (filter (fun x => x = k) (stickers c)).

(** The distinct values of a list, in order of first appearance. *)
Definition distinctColors (l : list Color) : list Color :=
  foldl (fun seen k => if decide (k ∈ seen) then seen else seen ++ [k]) [] l.

(** The colours present on the cube. *)
Definition presentColors (c : cubeState) : list Color :=
  distinctColors (filter (fun k => k ≠ unset) (stickers c)).

(** The three checks in their order, the first failure reported. *)
Definition validateSpec (c : cubeState) : validation :=
  if decide (totalSet c ≠ 54) then IncompleteError (totalSet c)
  else
    match find (fun k => bool_decide (colorCount c k ≠ 9)) (presentColors c) with
    | Some k => ColorCountError k (colorCount c k)
    | None =>
        if decide (length (presentColors c) ≠ 6)
        then ColorVarietyError (length (presentColors c))
        else Valid
    end.

(** ** Facelet encoding *)

(** A call that returns a value or throws an [Error] with a message. *)
Inductive outcome (A : Type) : Type :=
  | Returned (value : A)
  | Thrown (msg : string).
Arguments Returned {A} value.
Arguments Thrown {A} msg.

(** [this.colorMap]: the face letter of each palette colour;
    [color in this.colorMap] is false exactly for ['empty']. *)
Definition colorMap (k : Color) : option faceName :=
  match k with
  | white => Some U
  | yellow => Some D
  | red => Some R
  | orange => Some L
  | blue => Some F
  | green => Some B
  | unset => None
  end.

(** Face order for Kociemba: U, R, F, D, L, B *)
Definition faceOrder : list faceName := [U; R; F; D; L; B].

(** The body of the innermost [forEach], over the stickers still to visit;
    a [throw] abandons the remaining visits. *)
Fixpoint encodeFrom (result : string) (l : list Color) : outcome string :=
  match l with
  | [] => Returned result
  | color :: rest =>
      match colorMap color with
      | Some letter => encodeFrom (result +:+ faceToken letter) rest
      | None => Thrown ("Invalid color '" +:+ colorName color +:+ "' found in cube")
      end
  end.

Definition toKociembaString (c : cubeState) : outcome string :=
  encodeFrom "" (n ← faceOrder; faceValues (getFace c n)).

(** The index type of a row or column number below 3. *)
Definition idxOf (n : nat) : idx :=
  match n with 0 => i0 | 1 => i1 | _ => i2 end.

(** The face the specification puts at place [n] of its fixed order Up,
    Right, Front, Down, Left, Back. *)
Definition faceletFace (n : nat) : faceName :=
  match n with
  | 0 => U | 1 => R | 2 => F | 3 => D | 4 => L | _ => B
  end.

(** The sticker the specification puts at position [n] of the facelet
    string: faces in the order U, R, F, D, L, B, row-major within a face. *)
Definition faceletAt (c : cubeState) (n : nat) : Color :=
  get c (faceletFace (n / 9)) (idxOf ((n mod 9) / 3)) (idxOf (n mod 3)).

(** The face letter the specification assigns to a colour: white to U,
    yellow to D, blue to F, green to B, orange to L, red to R; the unset
    sentinel has none. *)
Definition canonicalLetter (k : Color) : option string :=
  match k with
  | white => Some "U"
  | yellow => Some "D"
  | blue => Some "F"
  | green => Some "B"
  | orange => Some "L"
  | red => Some "R"
  | unset => None
  end.

(** ** Random numbers *)

(** [Math.random()] is a sequence of draws, the [k]-th call of an operation
    returning [rnd k]; a draw is a rational and the program only ever sees
    draws in the half-open unit interval. *)
Definition unitDraws (rnd : nat -> Q) : Prop :=
  forall k, (0 <= rnd k)%Q /\ (rnd k < 1)%Q.

(** [Math.floor(r * n)] *)
Definition floorMul (r : Q) (n : nat) : nat :=
  Z.to_nat (Qfloor (r * inject_Z (Z.of_nat n))).

(** ** Solving *)

(** What the request to [/api/solve] comes back with: the [fetch] or the
    parsing of the body is rejected, or a body [{ success, solution, error }]
    arrives. *)
Inductive apiReply : Type :=
  | Unavailable (msg : string)
  | Reply (success : bool) (solution : list string) (error : option string).

(** The external solve call fails: the solver is unavailable or its
    response is an error response ([data.success] is false). *)
Definition solveCallFails (r : apiReply) : bool :=
  match r with
  | Unavailable _ => true
  | Reply success _ _ => negb success
  end.

(** [data.error || 'Failed to solve cube'] *)
Definition errorOr (error : option string) : string :=
  match error with
  | Some e => if String.eqb e "" then "Failed to solve cube" else e
  | None => "Failed to solve cube"
  end.

(** The table the fallback draws from. *)
Definition mockMoves : list string :=
  ["R"; "U"; "R'"; "U'"; "F"; "R"; "F'"; "U2"; "R'"; "U'"; "R"; "U"; "R'"; "F'"; "U"; "F"].

(** The body of the [catch]: one draw for the length, then one per move.
    With draws in the unit interval every index is inside the table. *)
Definition mockSolution (rnd : nat -> Q) : list string :=
  let randomLength := floorMul (rnd 0) 10 + 8 in
  map (fun i => default "undefined" (mockMoves !! floorMul (rnd (S i)) (length mockMoves)))
      (seq 0 randomLength).

(** The body of the [try]. *)
Definition requestSolution (api : string -> apiReply) (a : app) : outcome (list string) :=
  (* Convert cube to Kociemba format *)
  match toKociembaString (cube a) with
  | Thrown m => Thrown m
  | Returned cubeString =>
      (* Send to backend API for solving *)
      match api cubeString with
      | Unavailable m => Thrown m
      | Reply success solution error =>
          if success then Returned solution else Thrown (errorOr error)
      end
  end.

Definition generateSolution (api : string -> apiReply) (rnd : nat -> Q) (a : app)
  : outcome (list string) :=
  match requestSolution api a with
  | Returned solution => Returned solution
  | Thrown _ =>
      (* Fallback to mock solution if API is not available *)
      Returned (mockSolution rnd)
  end.

(** ** Scrambling *)

Definition paletteColors : list Color := [white; yellow; red; orange; blue; green].

(** Assign colors ensuring each appears exactly 9 times *)
Definition assignments : list Color :=
  color ← paletteColors; replicate 9 color.

(** [[a[i], a[j]] = [a[j], a[i]]]: both reads happen before the writes.
    With draws of the unit interval the shuffle only calls it with
    [j <= i < a.length] (lemma [shuffle_swaps_in_range]), where both reads
    succeed; the other branch is never taken by the program. *)
Definition swap (i j : nat) (a : list Color) : list Color :=
  match a !! j, a !! i with
  | Some aj, Some ai => <[j:=ai]> (<[i:=aj]> a)
  | _, _ => a
  end.

(** [for (let i = a.length - 1; i > 0; i--)], entered at index [i] after
    [calls] earlier draws. *)
Fixpoint shuffleFrom (rnd : nat -> Q) (calls i : nat) (a : list Color) : list Color :=
  match i with
  | O => a
  | S i' =>
      let j := floorMul (rnd calls) (i + 1) in
      shuffleFrom rnd (S calls) i' (swap i j a)
  end.

Definition shuffle (rnd : nat -> Q) (a : list Color) : list Color :=
  shuffleFrom rnd 0 (length a - 1) a.

(** The positions visited by the three nested loops that paint the cube. *)
Definition paintOrder : list (faceName * idx * idx) :=
  f ← cubeKeys; r ← [i0; i1; i2]; c ← [i0; i1; i2]; [(f, r, c)].

(** [this.cube[face][row][col] = assignments[index++]] *)
Definition paintStep (a : list Color) (acc : cubeState * nat) (p : faceName * idx * idx)
  : cubeState * nat :=
  let '(f, r, c) := p in
  match a !! snd acc with
  | Some color => (set (fst acc) f r c color, S (snd acc))
  | None => (fst acc, S (snd acc))
  end.

Definition paint (a : list Color) (c : cubeState) : cubeState :=
  fst (foldl (paintStep a) (c, 0) paintOrder).

(** The local path of [scrambleCube]: what happens after the reference
    scramble of the API has been shown or has failed. *)
Definition scrambleCube (rnd : nat -> Q) (a : app) : app :=
  let a := withCube a (paint (shuffle rnd assignments) (cube a)) in
  (* Copy scrambled state to 3D cube *)
  let a := copyTo3DCube a in
  clearSolution a.

(** ** Worked playback scenario *)

(** The sequence R, U, F' loaded against a cube painted solved. *)
Definition loadedExample : app :=
  displaySolution ["R"; "U"; "F'"] (withCube initialApp solvedCube).

(** The same after three presses of the next-step button. *)
Definition playedExample : app := nextStep (nextStep (nextStep loadedExample)).

(** ** Worked inputs *)

(** A solved cube with one sticker left unpainted: 53 stickers set. *)
Definition missingOneCube : cubeState := set solvedCube U i0 i0 unset.

(** The application with a solved cube painted and no solution loaded. *)
Definition solvedApp : app := withCube initialApp solvedCube.

(** A solver that cannot be reached. *)
Definition offlineApi (cubeString : string) : apiReply := Unavailable "Failed to fetch".

(** A solver that answers with an error response. *)
Definition refusingApi (cubeString : string) : apiReply :=
  Reply false [] (Some "Invalid cube string").

(** Draws that are all zero, and draws that are all one half. *)
Definition zeroDraws (k : nat) : Q := 0.
Definition halfDraws (k : nat) : Q := 1 # 2.

(** A solved cube whose front centre is left unpainted. *)
Definition unpaintedCentreCube : cubeState := set solvedCube F i1 i1 unset.

(** A solved cube with one white sticker painted red: 54 stickers set,
    8 white and 10 red. *)
Definition miscountedCube : cubeState := set solvedCube U i0 i0 red.

(** ** Auxiliary functions of the proofs *)

(** The counting loop on stickers that are all set. *)
Definition tally (d : list (Color * nat)) (l : list Color) : list (Color * nat) :=
  foldl (fun d k => bump k d) d l.

(** Occurrences of a colour in a list. *)
Definition occurrences (k : Color) (l : list Color) : nat :=
  length (filter (fun x => x = k) l).

(** The letter [colorMap] gives a sticker, or nothing when it has none. *)
Definition letterOf (k : Color) : string :=
  match colorMap k with
  | Some f => faceToken f
  | None => ""
  end.

(** The letters of a list of stickers, concatenated. *)
Definition lettersOf (l : list Color) : string :=
  foldr (fun k rest => letterOf k +:+ rest) "" l.

(** The 54 positions in the order of the facelet string. *)
Definition kociembaPositions : list (faceName * idx * idx) :=
  f ← faceOrder; r ← [i0; i1; i2]; c ← [i0; i1; i2]; [(f, r, c)].

(** The sticker at a position. *)
Definition stickerAt (c : cubeState) (p : faceName * idx * idx) : Color :=
  get c p.1.1 p.1.2 p.2.

(** ** Further operations of the page *)

#[global] Instance idx_eq_dec : EqDecision idx.
Proof. solve_decision. Defined.

(** The face across the cube. *)
Definition opposite (f : faceName) : faceName :=
  match f with
  | U => D | D => U | F => B | B => F | L => R | R => L
  end.

(** [generateRandomScramble(length)]: two draws per move, the first for
    the face letter and the second for the modifier; [calls] counts the
    draws made so far.  An index outside a table would read [undefined],
    which the string concatenation spells out. *)
Fixpoint scrambleFrom (rnd : nat -> Q) (calls n : nat) : list string :=
  match n with
  | O => []
  | S n' =>
      let move :=
        default "undefined" (faceLetters !! floorMul (rnd calls) (length faceLetters)) in
      let modifier :=
        default "undefined" (modifiers !! floorMul (rnd (S calls)) (length modifiers)) in
      (move +:+ modifier) :: scrambleFrom rnd (S (S calls)) n'
  end.

Definition generateRandomScramble (rnd : nat -> Q) (length : nat) : list string :=
  scrambleFrom rnd 0 length.

(** [colorSquare(face, row, col)], with the value of [this.selectedColor]
    passed in. *)
Definition colorSquare (selectedColor : Color) (f : faceName) (r c : idx) (a : app) : app :=
  (* Update cube model *)
  let a := withCube a (set (cube a) f r c selectedColor) in
  (* Copy updated state to 3D cube *)
  let a := copyTo3DCube a in
  (* Clear solution when cube is modified *)
  clearSolution a.

(** [resetCube]: the three nested loops write ['empty'] everywhere; the
    [sync3DCube] that follows only repaints, and [clearSolution] copies
    the cube to the working cube. *)
Definition resetCube (a : app) : app :=
  let a := withCube a
             (foldl (fun s p => set s p.1.1 p.1.2 p.2 unset) (cube a) paintOrder) in
  clearSolution a.

(** [solveCube]: the validation gate, then the request, then the display
    of whatever list came back.  The messages it shows are not part of the
    state. *)
Definition solveCube (api : string -> apiReply) (rnd : nat -> Q) (a : app) : app :=
  (* Validate cube first *)
  if valid (isValidCube (cube a)) then
    match generateSolution api rnd a with
    | Returned solution => displaySolution solution a
    | Thrown _ => a
    end
  else a.

(** One run of the closure [executeNext] of [autoSolve]: it either stops,
    or applies a move and re-arms its timer; [fuel] bounds the number of
    runs. *)
Fixpoint executeNext (fuel : nat) (a : app) : app :=
  match fuel with
  | O => a
  | S fuel' =>
      if (currentStep a <? Z.of_nat (length (solutionSteps a)))%Z then
        (* Perform the actual cube transformation *)
        let a := performStepAt (Z.to_nat (currentStep a)) a in
        let a := withCurrentStep a (currentStep a + 1)%Z in
        let a := updateStepDisplay a in
        executeNext fuel' a
      else a
  end.

(** [autoSolve], left to run with no other event in between. *)
Definition autoSolve (fuel : nat) (a : app) : app :=
  let a := withCurrentStep a 0%Z in
  (* Reset 3D cube to initial state *)
  let a := copyTo3DCube a in
  let a := updateStepDisplay a in
  executeNext fuel a.

(** [startPlaying]: rewinds the cursor when it is at the end, raises the
    flag and arms the interval timer. *)
Definition startPlaying (a : app) : app :=
  let a := if (Z.of_nat (length (solutionSteps a)) <=? currentStep a)%Z
           then withCurrentStep a 0%Z else a in
  withIsPlaying a true.

Definition togglePlayPause (a : app) : app :=
  if isPlaying a then stopPlaying a else startPlaying a.

(** One firing of the interval timer armed by [startPlaying]. *)
Definition playTick (a : app) : app :=
  if (currentStep a <? Z.of_nat (length (solutionSteps a)))%Z
  then nextStep a else stopPlaying a.

(** Up to [n] firings with no other event in between; [stopPlaying]
    disarms the timer, so the firings end when the flag drops. *)
Fixpoint playTicks (n : nat) (a : app) : app :=
  match n with
  | O => a
  | S n' => if isPlaying a then playTicks n' (playTick a) else a
  end.

(** The [disabled] flags [updateStepDisplay] gives the previous-step and
    the next-step button. *)
Definition prevDisabled (a : app) : bool :=
  if (currentStep a =? 0)%Z then true else false.

Definition nextDisabled (a : app) : bool :=
  let totalSteps := Z.of_nat (length (solutionSteps a)) in
  if (currentStep a =? 0)%Z then (totalSteps =? 0)%Z
  else if (currentStep a =? totalSteps)%Z then true
  else false.

(** The cursor is a step of the loaded sequence. *)
Definition cursorInRange (a : app) : Prop :=
  (0 <= currentStep a <= Z.of_nat (length (solutionSteps a)))%Z.

(** The working cube is the painted cube with the moves before the cursor
    applied. *)
Definition inSync (a : app) : Prop :=
  cursorInRange a /\
  cube3D a = applyMoves (take (Z.to_nat (currentStep a)) (solutionSteps a)) (cube a).

(** One for a sticker of the given colour, nothing for any other. *)
Definition indicator (k x : Color) : nat := if decide (x = k) then 1 else 0.

(** * Properties *)

(** ** Move engine *)

(** Names every sticker of a cube state, so that both sides of an equation
    between composed turns compute to the same constructor term. *)
Ltac name_stickers s :=
  destruct s as [[[? ? ?] [? ? ?] [? ? ?]] [[? ? ?] [? ? ?] [? ? ?]]
                 [[? ? ?] [? ? ?] [? ? ?]] [[? ? ?] [? ? ?] [? ? ?]]
                 [[? ? ?] [? ? ?] [? ? ?]] [[? ? ?] [? ? ?] [? ? ?]]].

(** Resolves the [switch] of [performCubeMove] on literal tokens, leaving
    the quarter turns folded. *)
Ltac run_switch :=
  cbv [repeatMove applyMoves foldl faceToken invertMove endsWith lastChar
       sliceInit append performCubeMove String.eqb Ascii.eqb Bool.eqb].

Lemma isValidMove_validMoves (move : string) :
  isValidMove move = true <-> move ∈ validMoves.
Proof.
  split.
  - destruct move as [|a rest]; simpl; [discriminate|].
    rewrite andb_true_iff, !orb_true_iff, !String.eqb_eq.
    intros [Hface Hmod]. apply bool_decide_eq_true_1 in Hface.
    unfold faceLetters in Hface.
    repeat (apply elem_of_cons in Hface as [Hface|Hface];
            [injection Hface as ->|]); [..|by apply elem_of_nil in Hface];
      destruct Hmod as [[->| ->]| ->]; vm_compute; repeat constructor.
  - intros H. unfold validMoves in H. vm_compute in H.
    repeat (apply elem_of_cons in H as [->|H]; [reflexivity|]).
    by apply elem_of_nil in H.
Qed.

(** There are eighteen tokens, all different. *)
Lemma validMoves_eighteen : length validMoves = 18 /\ NoDup validMoves.
Proof.
  split; [reflexivity|].
  apply (bool_decide_unpack (NoDup validMoves)). vm_compute. exact I.
Qed.

(** Each clockwise quarter turn has order dividing four. *)
Lemma rotateR_four s : rotateR (rotateR (rotateR (rotateR s))) = s.
Proof. name_stickers s. reflexivity. Qed.
Lemma rotateL_four s : rotateL (rotateL (rotateL (rotateL s))) = s.
Proof. name_stickers s. reflexivity. Qed.
Lemma rotateU_four s : rotateU (rotateU (rotateU (rotateU s))) = s.
Proof. name_stickers s. reflexivity. Qed.
Lemma rotateD_four s : rotateD (rotateD (rotateD (rotateD s))) = s.
Proof. name_stickers s. reflexivity. Qed.
Lemma rotateF_four s : rotateF (rotateF (rotateF (rotateF s))) = s.
Proof. name_stickers s. reflexivity. Qed.
Lemma rotateB_four s : rotateB (rotateB (rotateB (rotateB s))) = s.
Proof. name_stickers s. reflexivity. Qed.

Create HintDb quarter_turns.
#[local] Hint Resolve rotateR_four rotateL_four rotateU_four rotateD_four
  rotateF_four rotateB_four : quarter_turns.

(** C1. For every cube state and every face, four applications of the
    clockwise quarter-turn token of the face give the state back, and so do
    two applications of its half-turn token. *)
Theorem quarter_turn_four_half_turn_two (s : cubeState) (f : faceName) :
  repeatMove 4 (faceToken f) s = s /\
  repeatMove 2 (faceToken f +:+ "2") s = s.
Proof.
  destruct f; split; run_switch; auto with quarter_turns.
Qed.

(** C9. For every cube state and every one of the eighteen move tokens,
    the move leaves the centre sticker (row 1, column 1) of each of the six
    faces where it was. *)
Theorem performCubeMove_keeps_centers (s : cubeState) (move : string) (f : faceName) :
  isValidMove move = true ->
  get (performCubeMove move s) f i1 i1 = get s f i1 i1.
Proof.
  intros H. apply isValidMove_validMoves in H. vm_compute in H.
  repeat (apply elem_of_cons in H as [->|H];
          [run_switch; name_stickers s; destruct f; reflexivity|]).
  by apply elem_of_nil in H.
Qed.

Lemma performCubeMove_keeps_centers_witness :
  get (performCubeMove "F'" (rotateU solvedCube)) R i1 i1 = get (rotateU solvedCube) R i1 i1.
Proof. apply (performCubeMove_keeps_centers (rotateU solvedCube) "F'" R). reflexivity. Defined.

(** The counter-clockwise turns of five faces undo their clockwise turns. *)
Lemma invertMove_undoes_except_B (s : cubeState) (move : string) :
  isValidMove move = true -> move <> "B" -> move <> "B'" ->
  performCubeMove (invertMove move) (performCubeMove move s) = s.
Proof.
  intros H HB HB'. apply isValidMove_validMoves in H. vm_compute in H.
  repeat (apply elem_of_cons in H as [->|H];
          [first [congruence | run_switch; name_stickers s; reflexivity]|]).
  by apply elem_of_nil in H.
Qed.

(** [rotateBPrime] moves the three-sticker groups round the ring in the
    direction opposite to [rotateB], but writes the group read from D into
    L unreversed where [rotateB] reverses, so it is not the inverse. *)
Lemma rotateBPrime_ring (s : cubeState) :
  get (rotateBPrime s) L i0 i0 = get s D i2 i2 /\
  get (rotateB s) D i2 i2 = get s L i2 i0.
Proof. name_stickers s. split; reflexivity. Qed.

(** C2 (fails for the back face). On the solved cube turned by U and then
    R, the move B followed by [invertMove "B"], which is B', does not give
    the state back: the left face ends with its top-left and bottom-left
    stickers exchanged.  B' followed by [invertMove "B'"], which is B, does
    not either: the bottom row of the down face ends reversed. *)
Theorem invertMove_B_not_undone :
  let s := applyMoves ["U"; "R"] solvedCube in
  let s1 := performCubeMove (invertMove "B") (performCubeMove "B" s) in
  let s2 := performCubeMove (invertMove "B'") (performCubeMove "B'" s) in
  invertMove "B" = "B'" /\ invertMove "B'" = "B" /\
  s1 <> s /\ s2 <> s /\
  (get s L i0 i0, get s L i2 i0) = (blue, orange) /\
  (get s1 L i0 i0, get s1 L i2 i0) = (orange, blue) /\
  (get s D i2 i0, get s D i2 i2) = (yellow, orange) /\
  (get s2 D i2 i0, get s2 D i2 i2) = (orange, yellow).
Proof.
  cbv zeta. split; [reflexivity|]. split; [reflexivity|].
  split; [vm_compute; discriminate|]. split; [vm_compute; discriminate|].
  repeat split.
Qed.

(** ** Solution playback *)

Lemma performStepAt_solutionSteps i a :
  solutionSteps (performStepAt i a) = solutionSteps a.
Proof. unfold performStepAt. by destruct (solutionSteps a !! i). Qed.

(** The replay loop of [goToStep] applies the first [n] moves to the
    working state and touches nothing else. *)
Lemma replay_loop (n : nat) (a : app) :
  n <= length (solutionSteps a) ->
  foldl (fun a i => performStepAt i a) a (seq 0 n)
  = withCube3D a (applyMoves (take n (solutionSteps a)) (cube3D a)).
Proof.
  induction n as [|n IH]; intros Hn.
  - by destruct a.
  - rewrite seq_S, foldl_app, IH by lia. cbn [foldl Nat.add].
    destruct (lookup_lt_is_Some_2 (solutionSteps a) n) as [move Hmove]; [lia|].
    rewrite (take_S_r _ _ _ Hmove). unfold applyMoves. rewrite foldl_app.
    unfold performStepAt. cbn. by rewrite Hmove.
Qed.

(** [updateStepDisplay] leaves the cube, the working cube, the sequence
    and the cursor alone. *)
Lemma updateStepDisplay_fields a :
  cube (updateStepDisplay a) = cube a /\
  cube3D (updateStepDisplay a) = cube3D a /\
  solutionSteps (updateStepDisplay a) = solutionSteps a /\
  currentStep (updateStepDisplay a) = currentStep a.
Proof.
  unfold updateStepDisplay.
  destruct (currentStep a =? 0)%Z; [done|].
  by destruct (currentStep a =? _)%Z.
Qed.

Lemma updateStepDisplay_cube a : cube (updateStepDisplay a) = cube a.
Proof. apply updateStepDisplay_fields. Qed.
Lemma updateStepDisplay_cube3D a : cube3D (updateStepDisplay a) = cube3D a.
Proof. apply updateStepDisplay_fields. Qed.
Lemma updateStepDisplay_solutionSteps a :
  solutionSteps (updateStepDisplay a) = solutionSteps a.
Proof. apply updateStepDisplay_fields. Qed.
Lemma updateStepDisplay_currentStep a :
  currentStep (updateStepDisplay a) = currentStep a.
Proof. apply updateStepDisplay_fields. Qed.

(** Inside its guard, [goToStep] is reset, replay, set the cursor. *)
Lemma goToStep_in_range (a : app) (step : Z) :
  (0 <= step <= Z.of_nat (length (solutionSteps a)))%Z ->
  goToStep step a
  = updateStepDisplay
      (withCurrentStep
         (withCube3D a (applyMoves (take (Z.to_nat step) (solutionSteps a)) (cube a)))
         step).
Proof.
  intros Hstep. unfold goToStep.
  destruct (Z.leb_spec 0 step); [|lia].
  destruct (Z.leb_spec step (Z.of_nat (length (solutionSteps a)))); [|lia].
  cbn [andb]. rewrite replay_loop by (cbn; lia). by destruct a.
Qed.

(** Outside its guard, [goToStep] does nothing. *)
Lemma goToStep_out_of_range (a : app) (step : Z) :
  (step < 0 \/ Z.of_nat (length (solutionSteps a)) < step)%Z ->
  goToStep step a = a.
Proof.
  intros Hstep. unfold goToStep.
  destruct (Z.leb_spec 0 step); [|done].
  destruct (Z.leb_spec step (Z.of_nat (length (solutionSteps a)))); [lia|done].
Qed.

(** C7. For a loaded move sequence and a step between 0 and its length,
    [goToStep] sets the cursor to the step and leaves the working cube
    equal to the painted cube with the first [step] moves applied in
    order; the painted cube and the sequence are unchanged, and
    [goToStep 0] gives the painted cube back exactly. *)
Theorem goToStep_replays_from_snapshot (a : app) (step : Z) :
  (0 <= step <= Z.of_nat (length (solutionSteps a)))%Z ->
  currentStep (goToStep step a) = step /\
  cube3D (goToStep step a)
  = applyMoves (take (Z.to_nat step) (solutionSteps a)) (cube a) /\
  cube (goToStep step a) = cube a /\
  solutionSteps (goToStep step a) = solutionSteps a /\
  cube3D (goToStep 0 a) = cube a.
Proof.
  intros Hstep.
  rewrite (goToStep_in_range a step Hstep), (goToStep_in_range a 0) by lia.
  rewrite updateStepDisplay_currentStep, !updateStepDisplay_cube3D,
    updateStepDisplay_cube, updateStepDisplay_solutionSteps.
  by repeat split.
Qed.

Lemma goToStep_replays_from_snapshot_witness :
  currentStep (goToStep 2 loadedExample) = 2%Z /\
  cube3D (goToStep 2 loadedExample) = applyMoves ["R"; "U"] solvedCube.
Proof.
  destruct (goToStep_replays_from_snapshot loadedExample 2) as (H1 & H2 & _).
  - simpl. lia.
  - split; [exact H1 | exact H2].
Defined.

(** [previousStep] moves the cursor back by one. *)
Lemma previousStep_cursor (a : app) :
  (0 < currentStep a)%Z -> currentStep (previousStep a) = (currentStep a - 1)%Z.
Proof.
  intros H. unfold previousStep. destruct (Z.ltb_spec 0 (currentStep a)); [|lia].
  by rewrite updateStepDisplay_currentStep.
Qed.

(** [previousStep] never writes the working cube. *)
Lemma previousStep_cube3D (a : app) : cube3D (previousStep a) = cube3D a.
Proof.
  unfold previousStep. destruct (0 <? currentStep a)%Z; [|done].
  by rewrite updateStepDisplay_cube3D.
Qed.

(** C6 (fails on the working cube). With R, U, F' loaded on a solved cube
    and stepped forward three times, [previousStep] sets the cursor to 2
    but the working cube still has all three moves applied; it is not the
    painted cube with the first two moves applied. *)
Theorem previousStep_keeps_working_cube :
  currentStep playedExample = 3%Z /\
  cube3D playedExample = applyMoves ["R"; "U"; "F'"] solvedCube /\
  currentStep (previousStep playedExample) = 2%Z /\
  cube3D (previousStep playedExample) = applyMoves ["R"; "U"; "F'"] solvedCube /\
  cube3D (previousStep playedExample)
  <> applyMoves (take 2 (solutionSteps playedExample)) (cube playedExample).
Proof.
  split; [reflexivity|]. split; [reflexivity|]. split; [reflexivity|].
  split; [reflexivity|]. vm_compute. discriminate.
Qed.

(** ** Validation *)

(** The counting loop skips ['empty'] and counts every other sticker once. *)
Lemma countColors_loop (l : list Color) (d : list (Color * nat)) (n : nat) :
  foldl countStep (d, n) l
  = (tally d (filter (fun k => k ≠ unset) l),
     n + length (filter (fun k => k ≠ unset) l)).
Proof.
  revert d n. induction l as [|k l IH]; intros d n.
  - cbn. f_equal. lia.
  - cbn [foldl]. rewrite filter_cons.
    change (countStep (d, n) k)
      with (if decide (k ≠ unset) then (bump k d, n + 1) else (d, n)).
    destruct (decide (k ≠ unset)); rewrite IH; cbn; f_equal; lia.
Qed.

Lemma countColors_eq (c : cubeState) :
  countColors c = (tally [] (filter (fun k => k ≠ unset) (stickers c)), totalSet c).
Proof. unfold countColors. by rewrite countColors_loop. Qed.

(** Every visit adds exactly one to the sum of the counts. *)
Lemma bump_sum (k : Color) (d : list (Color * nat)) :
  sum_list (d.*2 ++ []) + 1 = sum_list ((bump k d).*2).
Proof.
  rewrite app_nil_r. induction d as [|[k' n] d IH]; cbn; [done|].
  destruct (decide (k' = k)); cbn; lia.
Qed.

Lemma tally_sum (l : list Color) (d : list (Color * nat)) :
  sum_list ((tally d l).*2) = sum_list (d.*2) + length l.
Proof.
  revert d. induction l as [|k l IH]; intros d; cbn; [lia|].
  unfold tally in IH. rewrite IH, <- bump_sum, app_nil_r. lia.
Qed.

Lemma sum_all_nine (d : list (Color * nat)) :
  Forall (fun e => e.2 = 9) d -> sum_list (d.*2) = 9 * length d.
Proof. induction 1 as [|[k n] d Hn _ IH]; cbn in *; lia. Qed.

Lemma find_all_nine (d : list (Color * nat)) :
  find (fun e : Color * nat => bool_decide (e.2 ≠ 9)) d = None
  <-> Forall (fun e => e.2 = 9) d.
Proof.
  induction d as [|e d IH]; cbn.
  - split; [constructor|done].
  - case_bool_decide as He.
    + split; [done|]. intros Hall. by inversion Hall.
    + rewrite IH. split; [intros; constructor; [by destruct (decide (e.2 = 9))|done]|].
      by inversion 1.
Qed.

(** Six is the only number of counters that can hold nine each and add up
    to fifty-four. *)
Lemma nine_each_six_colors (c : cubeState) :
  (countColors c).2 = 54 ->
  Forall (fun e => e.2 = 9) (countColors c).1 ->
  length (countColors c).1 = 6.
Proof.
  rewrite countColors_eq. cbn [fst snd]. intros Htotal Hnine.
  apply sum_all_nine in Hnine. rewrite tally_sum in Hnine.
  unfold totalSet in Htotal. change (sum_list ([].*2)) with 0 in Hnine. lia.
Qed.

(** Passing the first two checks is passing all three. *)
Lemma isValidCube_nine_each (c : cubeState) :
  (countColors c).2 = 54 ->
  Forall (fun e => e.2 = 9) (countColors c).1 ->
  isValidCube c = Valid.
Proof.
  intros Htotal Hnine. pose proof (nine_each_six_colors c Htotal Hnine) as Hsix.
  unfold isValidCube.
  destruct (countColors c) as [colorCounts totalSquares]; cbn in *.
  destruct (decide (totalSquares ≠ 54)); [done|].
  apply find_all_nine in Hnine. rewrite Hnine.
  by destruct (decide (length colorCounts ≠ 6)).
Qed.

(** *** The counters against the histogram of the stickers *)

Lemma distinctColors_snoc (l : list Color) (x : Color) :
  distinctColors (l ++ [x])
  = if decide (x ∈ distinctColors l) then distinctColors l
    else distinctColors l ++ [x].
Proof. unfold distinctColors. by rewrite foldl_app. Qed.

Lemma distinctColors_elem (l : list Color) (k : Color) :
  k ∈ distinctColors l <-> k ∈ l.
Proof.
  induction l as [|x l IH] using rev_ind; [done|].
  rewrite distinctColors_snoc, elem_of_app, list_elem_of_singleton, <- IH.
  destruct (decide (x ∈ distinctColors l)) as [Hx|Hx].
  - split; [by left|]. by intros [?| ->].
  - by rewrite elem_of_app, list_elem_of_singleton.
Qed.

Lemma distinctColors_NoDup (l : list Color) : NoDup (distinctColors l).
Proof.
  induction l as [|x l IH] using rev_ind; [constructor|].
  rewrite distinctColors_snoc. destruct (decide (x ∈ distinctColors l)); [done|].
  apply NoDup_app. split_and!; [done| |apply NoDup_singleton].
  by intros k Hk ->%list_elem_of_singleton.
Qed.

Lemma occurrences_snoc (k x : Color) (l : list Color) :
  occurrences k (l ++ [x]) = occurrences k l + (if decide (x = k) then 1 else 0).
Proof.
  unfold occurrences. rewrite filter_app, length_app, filter_cons, filter_nil.
  by destruct (decide (x = k)).
Qed.

Lemma occurrences_absent (k : Color) (l : list Color) :
  k ∉ l -> occurrences k l = 0.
Proof.
  unfold occurrences. induction l as [|x l IH]; [done|].
  rewrite not_elem_of_cons, filter_cons. intros [Hne Hl].
  destruct (decide (x = k)); [congruence|auto].
Qed.

Lemma occurrences_present (k : Color) (l : list Color) :
  0 < occurrences k l -> k ∈ l.
Proof.
  intros H. destruct (decide (k ∈ l)) as [|Hk]; [done|].
  apply occurrences_absent in Hk. lia.
Qed.

Lemma occurrences_set (k : Color) (l : list Color) :
  k ≠ unset -> occurrences k (filter (fun x => x ≠ unset) l) = occurrences k l.
Proof.
  intros Hk. unfold occurrences. induction l as [|x l IH]; [done|].
  rewrite !filter_cons. destruct (decide (x ≠ unset)) as [Hx|Hx].
  - rewrite filter_cons. destruct (decide (x = k)); cbn; by rewrite IH.
  - destruct (decide (x = k)); [|done]. destruct Hx. congruence.
Qed.

(** One visit of the loop on counters that already are a histogram. *)
Lemma bump_histogram (x : Color) (g g' : Color -> nat) (seen : list Color) :
  NoDup seen ->
  g' x = g x + 1 ->
  (forall k, k ≠ x -> g' k = g k) ->
  (x ∉ seen -> g x = 0) ->
  bump x ((fun k => (k, g k)) <$> seen)
  = (fun k => (k, g' k)) <$> (if decide (x ∈ seen) then seen else seen ++ [x]).
Proof.
  intros Hnodup Hx Hother. induction Hnodup as [|k seen Hk Hnodup IH]; intros Hnew.
  - rewrite decide_False by apply not_elem_of_nil. cbn.
    rewrite Hx, Hnew by apply not_elem_of_nil. done.
  - cbn [fmap list_fmap bump]. destruct (decide (k = x)) as [->|Hne].
    + rewrite decide_True by left. cbn. rewrite Hx. f_equal.
      apply list_fmap_ext. intros i k Hik. rewrite Hother; [done|].
      intros ->. apply Hk. by eapply list_elem_of_lookup_2.
    + rewrite IH by (intros Hx'; apply Hnew; rewrite not_elem_of_cons; auto).
      rewrite <- (Hother k) by done.
      destruct (decide (x ∈ seen)) as [Hin|Hin].
      * by rewrite decide_True by (by right).
      * by rewrite decide_False by (rewrite not_elem_of_cons; auto).
Qed.

(** After the loop the counters are the histogram of the visited stickers,
    one entry per distinct colour in order of first appearance. *)
Lemma tally_histogram (l : list Color) :
  tally [] l = (fun k => (k, occurrences k l)) <$> distinctColors l.
Proof.
  induction l as [|x l IH] using rev_ind; [done|].
  unfold tally in *. rewrite foldl_app. cbn [foldl]. rewrite IH, distinctColors_snoc.
  apply bump_histogram.
  - apply distinctColors_NoDup.
  - by rewrite occurrences_snoc, decide_True.
  - intros k Hk. by rewrite occurrences_snoc, decide_False, Nat.add_0_r.
  - rewrite distinctColors_elem. apply occurrences_absent.
Qed.

Lemma presentColors_set (c : cubeState) (k : Color) :
  k ∈ presentColors c <-> k ≠ unset /\ k ∈ stickers c.
Proof.
  unfold presentColors. rewrite distinctColors_elem, list_elem_of_filter. tauto.
Qed.

Lemma countColors_histogram (c : cubeState) :
  countColors c = ((fun k => (k, colorCount c k)) <$> presentColors c, totalSet c).
Proof.
  rewrite countColors_eq, tally_histogram. f_equal.
  apply list_fmap_ext. intros i k Hk. f_equal.
  apply list_elem_of_lookup_2, presentColors_set in Hk as [Hk _].
  by apply occurrences_set.
Qed.

Lemma find_histogram (g : Color -> nat) (seen : list Color) :
  find (fun e : Color * nat => bool_decide (e.2 ≠ 9)) ((fun k => (k, g k)) <$> seen)
  = (fun k => (k, g k)) <$> find (fun k => bool_decide (g k ≠ 9)) seen.
Proof.
  induction seen as [|k seen IH]; [done|]. cbn [fmap list_fmap find snd].
  destruct (bool_decide (g k ≠ 9)); [reflexivity|exact IH].
Qed.

(** [isValidCube] computes what the specification words. *)
Lemma isValidCube_validateSpec (c : cubeState) : isValidCube c = validateSpec c.
Proof.
  unfold isValidCube, validateSpec. rewrite countColors_histogram, find_histogram.
  destruct (decide (totalSet c ≠ 54)); [done|].
  destruct (find _ (presentColors c)); cbn [fmap option_fmap option_map];
    [reflexivity|].
  by rewrite length_fmap.
Qed.

(** C10. The colour-variety branch of [isValidCube] cannot be taken: when
    the loop has counted 54 stickers and every counter holds 9, there are
    exactly 6 counters and the result is valid; in the words of the claim,
    when 54 stickers are set and every present colour occurs 9 times, the
    number of distinct colours is 6 and the result is valid; and no cube
    state at all yields the colour-variety error. *)
Theorem isValidCube_variety_unreachable (c : cubeState) :
  ((countColors c).2 = 54 ->
   Forall (fun e => e.2 = 9) (countColors c).1 ->
   length (countColors c).1 = 6 /\ isValidCube c = Valid) /\
  (totalSet c = 54 ->
   Forall (fun k => colorCount c k = 9) (presentColors c) ->
   length (presentColors c) = 6 /\ isValidCube c = Valid) /\
  (forall found, isValidCube c <> ColorVarietyError found).
Proof.
  split_and!.
  - intros Htotal Hnine.
    split; [by apply nine_each_six_colors|by apply isValidCube_nine_each].
  - intros Htotal Hnine.
    pose proof (nine_each_six_colors c) as Hsix.
    pose proof (isValidCube_nine_each c) as Hvalid.
    rewrite countColors_histogram in Hsix, Hvalid. cbn [fst snd] in Hsix, Hvalid.
    rewrite length_fmap in Hsix. rewrite Forall_fmap in Hsix, Hvalid. auto.
  - intros found. unfold isValidCube.
    pose proof (nine_each_six_colors c) as Hsix.
    destruct (countColors c) as [colorCounts totalSquares]; cbn in *.
    destruct (decide (totalSquares ≠ 54)); [done|].
    destruct (find _ colorCounts) as [[color count]|] eqn:Hfind; [done|].
    apply find_all_nine in Hfind.
    destruct (decide (length colorCounts ≠ 6)) as [Hne|]; [|done].
    exfalso. apply Hne, Hsix; [lia|done].
Qed.

Lemma isValidCube_variety_unreachable_witness :
  (length (countColors solvedCube).1 = 6 /\ isValidCube solvedCube = Valid) /\
  (length (presentColors solvedCube) = 6 /\ isValidCube solvedCube = Valid).
Proof.
  split.
  - apply (proj1 (isValidCube_variety_unreachable solvedCube)).
    + vm_compute. reflexivity.
    + vm_compute. repeat constructor.
  - apply (proj1 (proj2 (isValidCube_variety_unreachable solvedCube))).
    + vm_compute. reflexivity.
    + replace (presentColors solvedCube)
        with [white; yellow; blue; green; orange; red] by (vm_compute; reflexivity).
      repeat (constructor; [vm_compute; reflexivity|]). constructor.
Defined.

(** The objects [isValidCube] returns on the worked inputs. *)
Lemma isValidCube_messages :
  (valid (isValidCube solvedCube), message (isValidCube solvedCube))
  = (true, "Valid cube configuration.") /\
  (valid (isValidCube missingOneCube), message (isValidCube missingOneCube))
  = (false, "Cube must have all 54 squares colored. Currently has 53.") /\
  (valid (isValidCube miscountedCube), message (isValidCube miscountedCube))
  = (false, "Color 'red' appears 10 times, should be 9.").
Proof. repeat split; vm_compute; reflexivity. Qed.

Lemma stickers_length (c : cubeState) : length (stickers c) = 54.
Proof. name_stickers c. reflexivity. Qed.

Lemma set_and_unset (l : list Color) :
  length (filter (fun k => k ≠ unset) l) + occurrences unset l = length l.
Proof.
  unfold occurrences. induction l as [|x l IH]; [done|].
  rewrite !filter_cons.
  destruct (decide (x ≠ unset)), (decide (x = unset)); cbn [length];
    first [lia | congruence | tauto].
Qed.







(** ** Facelet encoding *)

Lemma append_cons (x : ascii) (a b : string) :
  String x a +:+ b = String x (a +:+ b).
Proof. reflexivity. Qed.

Lemma append_empty_r (a : string) : a +:+ "" = a.
Proof. induction a as [|x a IH]; [done|]. by rewrite append_cons, IH. Qed.

Lemma append_assoc (a b c : string) : (a +:+ b) +:+ c = a +:+ (b +:+ c).
Proof. induction a as [|x a IH]; [done|]. by rewrite !append_cons, IH. Qed.

Lemma length_append (a b : string) :
  String.length (a +:+ b) = String.length a + String.length b.
Proof.
  induction a as [|x a IH]; [done|].
  rewrite append_cons. cbn [String.length]. by rewrite IH.
Qed.

Lemma letterOf_mapped (k : Color) :
  colorMap k ≠ None ->
  exists f a, colorMap k = Some f /\ faceToken f = String a "" /\ letterOf k = String a "".
Proof.
  intros Hk. unfold letterOf. destruct (colorMap k) as [f|]; [|done].
  exists f. destruct f; eexists; done.
Qed.

(** On stickers that all have a letter, the loop appends the letters. *)
Lemma encodeFrom_mapped (l : list Color) (result : string) :
  Forall (fun k => colorMap k ≠ None) l ->
  encodeFrom result l = Returned (result +:+ lettersOf l).
Proof.
  intros Hl. revert result.
  induction Hl as [|k l Hk _ IH]; intros result; cbn [encodeFrom lettersOf foldr].
  - by rewrite append_empty_r.
  - unfold letterOf. destruct (colorMap k) as [f|]; [|done].
    by rewrite IH, append_assoc.
Qed.

(** The loop throws at the first sticker without a letter, naming it. *)
Lemma encodeFrom_unmapped (l1 l2 : list Color) (k : Color) (result : string) :
  Forall (fun k => colorMap k ≠ None) l1 ->
  colorMap k = None ->
  encodeFrom result (l1 ++ k :: l2)
  = Thrown ("Invalid color '" +:+ colorName k +:+ "' found in cube").
Proof.
  intros Hl Hk. revert result. induction Hl as [|x l1 Hx _ IH]; intros result; cbn.
  - by rewrite Hk.
  - destruct (colorMap x); [apply IH|done].
Qed.

(** A list of stickers either all have a letter or splits at the first
    one that has none. *)
Lemma first_unmapped (l : list Color) :
  Forall (fun k => colorMap k ≠ None) l \/
  exists l1 k l2, l = l1 ++ k :: l2 /\
    Forall (fun k => colorMap k ≠ None) l1 /\ colorMap k = None.
Proof.
  induction l as [|x l IH]; [left; constructor|].
  destruct (colorMap x) as [f|] eqn:Hx.
  - destruct IH as [IH|(l1 & k & l2 & -> & Hl1 & Hk)].
    + left. constructor; [by rewrite Hx|done].
    + right. exists (x :: l1), k, l2. split_and!; [done| |done].
      constructor; [by rewrite Hx|done].
  - right. exists [], x, l. split_and!; [done|constructor|done].
Qed.

Lemma lettersOf_length (l : list Color) :
  Forall (fun k => colorMap k ≠ None) l ->
  String.length (lettersOf l) = length l.
Proof.
  induction 1 as [|k l Hk _ IH]; [done|]. cbn [lettersOf foldr].
  destruct (letterOf_mapped k Hk) as (f & a & _ & _ & ->).
  rewrite append_cons. cbn [String.length length]. by rewrite <- IH.
Qed.

Lemma substring_0_0 (s : string) : substring 0 0 s = "".
Proof. by destruct s. Qed.

(** Character [n] of the concatenated letters is the letter of sticker [n]. *)
Lemma lettersOf_substring (l : list Color) (n : nat) (k : Color) :
  Forall (fun k => colorMap k ≠ None) l ->
  l !! n = Some k ->
  substring n 1 (lettersOf l) = letterOf k.
Proof.
  intros Hl. revert n. induction Hl as [|x l Hx _ IH]; intros n Hn; [done|].
  cbn [lettersOf foldr]. destruct (letterOf_mapped x Hx) as (f & a & _ & _ & Hletter).
  destruct n as [|n].
  - injection Hn as <-. rewrite Hletter, append_cons. cbn [substring].
    by rewrite substring_0_0.
  - rewrite Hletter, append_cons. cbn [substring]. by apply IH.
Qed.

(** The nested loops of [toKociembaString] visit the stickers in the order
    of [kociembaPositions], which is the order of [faceletAt]. *)
Lemma kociemba_visits (c : cubeState) :
  (n ← faceOrder; faceValues (getFace c n)) = stickerAt c <$> kociembaPositions.
Proof. reflexivity. Qed.

Lemma kociembaPositions_faceletAt (c : cubeState) (n : nat) :
  n < 54 -> stickerAt c <$> kociembaPositions !! n = Some (faceletAt c n).
Proof.
  intros Hn. do 54 (destruct n as [|n]; [reflexivity|]). lia.
Qed.

Lemma kociembaPositions_complete (p : faceName * idx * idx) : p ∈ kociembaPositions.
Proof. destruct p as [[[] []] []]; vm_compute; repeat constructor. Qed.

Lemma kociemba_all_mapped (c : cubeState) :
  (forall f r cc, colorMap (get c f r cc) ≠ None) ->
  Forall (fun k => colorMap k ≠ None) (stickerAt c <$> kociembaPositions).
Proof.
  intros Hmapped. apply Forall_fmap, Forall_forall. intros [[f r] cc] _.
  apply Hmapped.
Qed.

(** The letter [toKociembaString] appends for a colour is the letter the
    specification assigns to it. *)
Lemma canonicalLetter_colorMap (k : Color) :
  canonicalLetter k = faceToken <$> colorMap k.
Proof. by destruct k. Qed.

Lemma canonicalLetter_letterOf (k : Color) :
  colorMap k ≠ None -> canonicalLetter k = Some (letterOf k).
Proof. by destruct k. Qed.

Lemma canonicalLetter_mapped (k : Color) :
  canonicalLetter k = None <-> colorMap k = None.
Proof. by destruct k. Qed.

(** C5. The letters [toKociembaString] writes are U for white, D for
    yellow, F for blue, B for green, L for orange and R for red, and
    ['empty'] has none.  When every sticker has a canonical letter,
    [toKociembaString] returns a string of 54 characters whose character
    [n] is the canonical letter of the sticker at face [n / 9] of U, R, F,
    D, L, B, row [(n mod 9) / 3], column [n mod 3].  When some sticker has
    no canonical letter, it throws the invalid-colour error naming the
    colour of a sticker without one. *)
Theorem toKociembaString_encodes (c : cubeState) :
  (faceToken <$> colorMap white = Some "U" /\
   faceToken <$> colorMap yellow = Some "D" /\
   faceToken <$> colorMap blue = Some "F" /\
   faceToken <$> colorMap green = Some "B" /\
   faceToken <$> colorMap orange = Some "L" /\
   faceToken <$> colorMap red = Some "R" /\
   colorMap unset = None) /\
  ((forall f r cc, canonicalLetter (get c f r cc) ≠ None) ->
   exists str,
     toKociembaString c = Returned str /\
     String.length str = 54 /\
     forall n, n < 54 -> canonicalLetter (faceletAt c n) = Some (substring n 1 str)) /\
  ((exists f r cc, canonicalLetter (get c f r cc) = None) ->
   exists f r cc,
     canonicalLetter (get c f r cc) = None /\
     toKociembaString c
     = Thrown ("Invalid color '" +:+ colorName (get c f r cc) +:+ "' found in cube")).
Proof.
  split; [by repeat split|]. unfold toKociembaString. rewrite kociemba_visits. split.
  - intros Hmapped.
    assert (Hall : Forall (fun k => colorMap k ≠ None) (stickerAt c <$> kociembaPositions)).
    { apply kociemba_all_mapped. intros f r cc Hnone.
      by apply (Hmapped f r cc), canonicalLetter_mapped. }
    exists (lettersOf (stickerAt c <$> kociembaPositions)). split_and!.
    + by rewrite encodeFrom_mapped.
    + rewrite lettersOf_length by done. by rewrite length_fmap.
    + intros n Hn.
      assert (Hlookup : (stickerAt c <$> kociembaPositions) !! n = Some (faceletAt c n)).
      { rewrite list_lookup_fmap. by apply kociembaPositions_faceletAt. }
      rewrite (lettersOf_substring _ _ _ Hall Hlookup).
      apply canonicalLetter_letterOf.
      rewrite Forall_forall in Hall. apply Hall. by eapply list_elem_of_lookup_2.
  - intros (f & r & cc & Hnone). apply canonicalLetter_mapped in Hnone.
    destruct (first_unmapped (stickerAt c <$> kociembaPositions))
      as [Hall|(l1 & k & l2 & Hsplit & Hl1 & Hk)].
    + rewrite Forall_forall in Hall. destruct (Hall (get c f r cc)); [|done].
      apply (list_elem_of_fmap_2 (stickerAt c) _ (f, r, cc)), kociembaPositions_complete.
    + assert (Hin : k ∈ stickerAt c <$> kociembaPositions).
      { rewrite Hsplit, elem_of_app, elem_of_cons. auto. }
      apply list_elem_of_fmap in Hin as [[[f' r'] cc'] [-> _]].
      exists f', r', cc'. split; [by apply canonicalLetter_mapped|].
      rewrite Hsplit. by apply encodeFrom_unmapped.
Qed.

Lemma toKociembaString_encodes_witness :
  toKociembaString (rotateU solvedCube)
  = Returned "UUUUUUUUUBBBRRRRRRRRRFFFFFFDDDDDDDDDFFFLLLLLLLLLBBBBBB" /\
  (exists str,
     toKociembaString (rotateU solvedCube) = Returned str /\
     String.length str = 54 /\
     forall n, n < 54 ->
       canonicalLetter (faceletAt (rotateU solvedCube) n) = Some (substring n 1 str)) /\
  (exists f r cc,
     canonicalLetter (get unpaintedCentreCube f r cc) = None /\
     toKociembaString unpaintedCentreCube
     = Thrown ("Invalid color '" +:+ colorName (get unpaintedCentreCube f r cc)
               +:+ "' found in cube")).
Proof.
  split; [vm_compute; reflexivity|]. split.
  - apply (proj1 (proj2 (toKociembaString_encodes (rotateU solvedCube)))).
    intros [] [] []; vm_compute; discriminate.
  - apply (proj2 (proj2 (toKociembaString_encodes unpaintedCentreCube))).
    exists F, i1, i1. vm_compute. reflexivity.
Defined.

(** ** Random indices *)

(** [Math.floor(r * n)] is an index below [n] for a draw of the unit
    interval. *)
Lemma floorMul_lt (r : Q) (n : nat) :
  (0 <= r)%Q -> (r < 1)%Q -> 0 < n -> floorMul r n < n.
Proof.
  intros Hlo Hhi Hn. unfold floorMul.
  assert (Hpos : (0 < inject_Z (Z.of_nat n))%Q).
  { rewrite <- (Zlt_Qlt 0). lia. }
  assert (Hupper : (Qfloor (r * inject_Z (Z.of_nat n)) < Z.of_nat n)%Z).
  { rewrite Zlt_Qlt. eapply Qle_lt_trans; [apply Qfloor_le|].
    rewrite <- (Qmult_1_l (inject_Z (Z.of_nat n))) at 2.
    by apply Qmult_lt_compat_r. }
  assert (Hlower : (0 <= Qfloor (r * inject_Z (Z.of_nat n)))%Z).
  { change 0%Z with (Qfloor 0). apply Qfloor_resp_le.
    apply Qmult_le_0_compat; [done|]. by apply Qlt_le_weak. }
  lia.
Qed.

(** ** Solving *)

(** [generateSolution] never rejects: whatever goes wrong in the [try], the
    [catch] returns a list. *)
Lemma generateSolution_returns (api : string -> apiReply) (rnd : nat -> Q) (a : app) :
  exists solution, generateSolution api rnd a = Returned solution.
Proof. unfold generateSolution. destruct (requestSolution api a); eauto. Qed.

(** A failed request of any kind ends in the fallback list. *)
Lemma generateSolution_failed_request (api : string -> apiReply) (rnd : nat -> Q)
    (a : app) (msg : string) :
  requestSolution api a = Thrown msg ->
  generateSolution api rnd a = Returned (mockSolution rnd).
Proof. unfold generateSolution. by intros ->. Qed.

(** The fallback list has 8 to 17 entries, all from the table. *)
Lemma mockSolution_shape (rnd : nat -> Q) :
  unitDraws rnd ->
  8 <= length (mockSolution rnd) <= 17 /\
  Forall (fun move => move ∈ mockMoves) (mockSolution rnd).
Proof.
  intros Hrnd. unfold mockSolution. split.
  - rewrite length_fmap, length_seq.
    pose proof (floorMul_lt (rnd 0) 10 (proj1 (Hrnd 0)) (proj2 (Hrnd 0))). lia.
  - apply Forall_fmap, Forall_forall. intros i _. cbn [compose].
    pose proof (floorMul_lt (rnd (S i)) (length mockMoves)
                  (proj1 (Hrnd (S i))) (proj2 (Hrnd (S i)))) as Hlt.
    destruct (lookup_lt_is_Some_2 mockMoves (floorMul (rnd (S i)) (length mockMoves)))
      as [move Hmove]; [apply Hlt; cbn; lia|].
    rewrite Hmove. cbn. by eapply list_elem_of_lookup_2.
Qed.

(** What the [catch] of [generateSolution] does: when the cube encodes and
    the external solve call fails, the solver being unavailable or
    answering with an error response, the result is the fallback list,
    which has between 8 and 17 moves, each an entry of the fixed table. *)
Lemma generateSolution_falls_back (api : string -> apiReply) (rnd : nat -> Q)
    (a : app) (cubeString : string) :
  unitDraws rnd ->
  toKociembaString (cube a) = Returned cubeString ->
  solveCallFails (api cubeString) = true ->
  generateSolution api rnd a = Returned (mockSolution rnd) /\
  8 <= length (mockSolution rnd) <= 17 /\
  Forall (fun move => move ∈ mockMoves) (mockSolution rnd).
Proof.
  intros Hrnd Hencode Hfails. split; [|by apply mockSolution_shape].
  unfold generateSolution, requestSolution. rewrite Hencode.
  destruct (api cubeString) as [msg|success solution error]; [done|].
  cbn in Hfails. by destruct success.
Qed.

Lemma halfDraws_unit : unitDraws halfDraws.
Proof. intros k. unfold halfDraws, Qle, Qlt. cbn. lia. Defined.

Lemma generateSolution_falls_back_witness :
  generateSolution refusingApi halfDraws solvedApp = Returned (mockSolution halfDraws) /\
  8 <= length (mockSolution halfDraws) <= 17 /\
  Forall (fun move => move ∈ mockMoves) (mockSolution halfDraws).
Proof.
  apply (generateSolution_falls_back refusingApi halfDraws solvedApp
           "UUUUUUUUURRRRRRRRRFFFFFFFFFDDDDDDDDDLLLLLLLLLBBBBBBBBB").
  - exact halfDraws_unit.
  - vm_compute. reflexivity.
  - reflexivity.
Defined.

(** C4 (fails on the code). With a solved cube painted, the request
    fails when the solver is unreachable and when it answers with an error
    response, for which the [try] throws the solver's error; yet in both
    cases the [catch] swallows the failure and [generateSolution] returns
    eight fabricated moves and no error. *)
Theorem generateSolution_fabricates :
  requestSolution offlineApi solvedApp = Thrown "Failed to fetch" /\
  generateSolution offlineApi zeroDraws solvedApp
  = Returned ["R"; "R"; "R"; "R"; "R"; "R"; "R"; "R"] /\
  ~ (exists msg, generateSolution offlineApi zeroDraws solvedApp = Thrown msg) /\
  requestSolution refusingApi solvedApp = Thrown "Invalid cube string" /\
  generateSolution refusingApi zeroDraws solvedApp
  = Returned ["R"; "R"; "R"; "R"; "R"; "R"; "R"; "R"] /\
  ~ (exists msg, generateSolution refusingApi zeroDraws solvedApp = Thrown msg).
Proof.
  split; [vm_compute; reflexivity|]. split; [vm_compute; reflexivity|].
  split; [intros [msg H]; vm_compute in H; discriminate|].
  split; [vm_compute; reflexivity|]. split; [vm_compute; reflexivity|].
  intros [msg H]. vm_compute in H. discriminate.
Qed.

(** ** Scrambling *)

Lemma swap_Permutation (i j : nat) (a : list Color) : swap i j a ≡ₚ a.
Proof.
  unfold swap. destruct (a !! j) as [aj|] eqn:Hj; [|done].
  destruct (a !! i) as [ai|] eqn:Hi; [|done].
  by apply Permutation_insert_swap.
Qed.

Lemma swap_length (i j : nat) (a : list Color) : length (swap i j a) = length a.
Proof. apply Permutation_length, swap_Permutation. Qed.

(** With draws of the unit interval the shuffle only exchanges entries
    inside the array: both reads of every [swap] succeed. *)
Lemma shuffle_swaps_in_range (rnd : nat -> Q) (calls i : nat) (a : list Color) :
  unitDraws rnd -> i < length a ->
  floorMul (rnd calls) (i + 1) <= i /\
  is_Some (a !! floorMul (rnd calls) (i + 1)) /\ is_Some (a !! i).
Proof.
  intros Hrnd Hi.
  pose proof (floorMul_lt (rnd calls) (i + 1) (proj1 (Hrnd calls)) (proj2 (Hrnd calls))).
  split_and!; [lia|apply lookup_lt_is_Some_2; lia|by apply lookup_lt_is_Some_2].
Qed.

Lemma shuffleFrom_Permutation (rnd : nat -> Q) (calls i : nat) (a : list Color) :
  shuffleFrom rnd calls i a ≡ₚ a.
Proof.
  revert calls a. induction i as [|i IH]; intros calls a; [done|].
  cbn [shuffleFrom]. rewrite IH. apply swap_Permutation.
Qed.

Lemma shuffle_Permutation (rnd : nat -> Q) (a : list Color) : shuffle rnd a ≡ₚ a.
Proof. apply shuffleFrom_Permutation. Qed.

(** Painting 54 colours onto the cube puts them on the stickers in the
    order in which validation reads them. *)
Lemma paint_stickers (l : list Color) (c : cubeState) :
  length l = 54 -> stickers (paint l c) = l.
Proof.
  intros Hl. do 54 (destruct l as [|? l]; [discriminate Hl|]).
  destruct l; [|discriminate Hl]. vm_compute. reflexivity.
Qed.

Lemma stickers_positions (c : cubeState) : stickers c = stickerAt c <$> paintOrder.
Proof. reflexivity. Qed.

Lemma paintOrder_complete (p : faceName * idx * idx) : p ∈ paintOrder.
Proof. destruct p as [[[] []] []]; vm_compute; repeat constructor. Qed.

Lemma occurrences_Permutation (k : Color) (l1 l2 : list Color) :
  l1 ≡ₚ l2 -> occurrences k l1 = occurrences k l2.
Proof.
  intros H. unfold occurrences. apply Permutation_length.
  by apply filter_Permutation.
Qed.

(** A cube whose stickers are a rearrangement of nine of each palette
    colour passes validation. *)
Lemma balanced_valid (c : cubeState) :
  stickers c ≡ₚ assignments -> isValidCube c = Valid.
Proof.
  intros Hperm. apply isValidCube_nine_each.
  - rewrite countColors_histogram. cbn [fst snd]. unfold totalSet.
    rewrite (Permutation_length (filter_Permutation _ _ _ Hperm)).
    vm_compute. reflexivity.
  - rewrite countColors_histogram. cbn [fst snd].
    apply Forall_fmap, Forall_forall. intros k Hk. cbn [compose snd].
    apply presentColors_set in Hk as [Hset _].
    unfold colorCount.
    change (length (filter (fun x => x = k) (stickers c)))
      with (occurrences k (stickers c)).
    rewrite (occurrences_Permutation k _ _ Hperm).
    destruct k; [vm_compute; reflexivity..|]. done.
Qed.

(** Such a cube has no ['empty'] sticker and nine of each colour. *)
Lemma balanced_counts (c : cubeState) :
  stickers c ≡ₚ assignments ->
  (forall f r cc, get c f r cc ≠ unset) /\
  (forall k, k ∈ paletteColors -> colorCount c k = 9).
Proof.
  intros Hperm. split.
  - intros f r cc Hunset.
    assert (Hin : unset ∈ stickers c).
    { rewrite stickers_positions, <- Hunset.
      apply (list_elem_of_fmap_2 (stickerAt c) _ (f, r, cc)), paintOrder_complete. }
    rewrite Hperm in Hin. vm_compute in Hin.
    repeat (apply elem_of_cons in Hin as [Hin|Hin]; [discriminate Hin|]).
    by apply elem_of_nil in Hin.
  - intros k Hk. unfold colorCount.
    change (length (filter (fun x => x = k) (stickers c)))
      with (occurrences k (stickers c)).
    rewrite (occurrences_Permutation k _ _ Hperm).
    vm_compute in Hk.
    repeat (apply elem_of_cons in Hk as [->|Hk]; [vm_compute; reflexivity|]).
    by apply elem_of_nil in Hk.
Qed.

Lemma scrambleCube_cube (rnd : nat -> Q) (a : app) :
  cube (scrambleCube rnd a) = paint (shuffle rnd assignments) (cube a) /\
  cube3D (scrambleCube rnd a) = cube (scrambleCube rnd a).
Proof.
  unfold scrambleCube, clearSolution, stopPlaying, copyTo3DCube, withSolutionSteps,
    withCurrentStep, withCube3D, withIsPlaying, withCube.
  cbn [cube cube3D]. split; reflexivity.
Qed.

(** C8. For draws of the unit interval, the local path of [scrambleCube]
    leaves a painted cube whose 54 stickers are a rearrangement of nine of
    each of the six colours: no sticker is ['empty'], each colour occurs 9
    times, and the cube passes [isValidCube]; the working cube is a copy
    of it. *)
Theorem scrambleCube_balanced (rnd : nat -> Q) (a : app) :
  unitDraws rnd ->
  stickers (cube (scrambleCube rnd a)) ≡ₚ assignments /\
  (forall f r cc, get (cube (scrambleCube rnd a)) f r cc ≠ unset) /\
  (forall k, k ∈ paletteColors -> colorCount (cube (scrambleCube rnd a)) k = 9) /\
  isValidCube (cube (scrambleCube rnd a)) = Valid /\
  cube3D (scrambleCube rnd a) = cube (scrambleCube rnd a).
Proof.
  intros _. destruct (scrambleCube_cube rnd a) as [Hcube Hcopy].
  revert Hcopy. generalize (cube3D (scrambleCube rnd a)).
  revert Hcube. generalize (cube (scrambleCube rnd a)). intros c -> c3D Hcopy.
  assert (Hperm : stickers (paint (shuffle rnd assignments) (cube a)) ≡ₚ assignments).
  { rewrite paint_stickers; [apply shuffle_Permutation|].
    rewrite (Permutation_length (shuffle_Permutation rnd assignments)).
    vm_compute. reflexivity. }
  destruct (balanced_counts _ Hperm) as [Hset Hnine].
  split_and!; [exact Hperm|exact Hset|exact Hnine|by apply balanced_valid|exact Hcopy].
Qed.

Lemma scrambleCube_balanced_witness :
  isValidCube (cube (scrambleCube halfDraws initialApp)) = Valid /\
  colorCount (cube (scrambleCube halfDraws initialApp)) red = 9.
Proof.
  destruct (scrambleCube_balanced halfDraws initialApp halfDraws_unit)
    as (_ & _ & Hnine & Hvalid & _).
  split; [exact Hvalid|]. apply Hnine. vm_compute. repeat constructor.
Defined.

(** * Further properties *)

(** ** Face rotations and quarter turns *)

(** X1. On every face, [rotateFaceCounterClockwise] undoes
    [rotateFaceClockwise] and the other way round, four clockwise
    rotations give the state back, and neither touches a sticker of
    another face. *)
Theorem rotateFace_inverse_local (f : faceName) (s : cubeState) :
  rotateFaceCounterClockwise f (rotateFaceClockwise f s) = s /\
  rotateFaceClockwise f (rotateFaceCounterClockwise f s) = s /\
  rotateFaceClockwise f (rotateFaceClockwise f
    (rotateFaceClockwise f (rotateFaceClockwise f s))) = s /\
  (forall f', f' ≠ f ->
     getFace (rotateFaceClockwise f s) f' = getFace s f' /\
     getFace (rotateFaceCounterClockwise f s) f' = getFace s f').
Proof.
  name_stickers s. split_and!; [by destruct f..|].
  intros f' Hf'. by destruct f, f'.
Qed.

(** X2. For the faces R, L, U, D and F the counter-clockwise token undoes
    the clockwise token in either order, and it does what three clockwise
    turns do. *)
Theorem counter_clockwise_is_inverse (f : faceName) (s : cubeState) :
  f ≠ B ->
  performCubeMove (faceToken f +:+ "'") (performCubeMove (faceToken f) s) = s /\
  performCubeMove (faceToken f) (performCubeMove (faceToken f +:+ "'") s) = s /\
  performCubeMove (faceToken f +:+ "'") s = repeatMove 3 (faceToken f) s.
Proof.
  intros Hf. destruct f; try done; run_switch; name_stickers s; by repeat split.
Qed.

Lemma counter_clockwise_is_inverse_witness :
  performCubeMove "F'" (performCubeMove "F" (rotateU solvedCube)) = rotateU solvedCube /\
  performCubeMove "F" (performCubeMove "F'" (rotateU solvedCube)) = rotateU solvedCube /\
  performCubeMove "F'" (rotateU solvedCube) = repeatMove 3 "F" (rotateU solvedCube).
Proof.
  apply (counter_clockwise_is_inverse F (rotateU solvedCube)). discriminate.
Defined.

(** X3. [rotateBPrime] has order eight on the cube: eight applications of
    the token B' give every state back, while four do not in general, and
    three clockwise B turns are not B'. *)
Theorem rotateBPrime_order_eight (s : cubeState) :
  repeatMove 8 "B'" s = s /\
  (exists s', repeatMove 4 "B'" s' <> s') /\
  (exists s', performCubeMove "B'" s' <> repeatMove 3 "B" s').
Proof.
  split; [run_switch; name_stickers s; reflexivity|].
  split; exists (applyMoves ["U"; "R"] solvedCube); vm_compute; discriminate.
Qed.

(** The three tokens of a face. *)
Lemma face_tokens (f : faceName) (x : string) :
  x ∈ modifiers -> isValidMove (faceToken f +:+ x) = true.
Proof.
  intros Hx. unfold modifiers in Hx.
  repeat (apply elem_of_cons in Hx as [->|Hx]; [by destruct f|]).
  by apply elem_of_nil in Hx.
Qed.

(** X4. Turns of opposite faces commute, whatever their modifiers. *)
Theorem opposite_faces_commute (f : faceName) (x y : string) (s : cubeState) :
  x ∈ modifiers -> y ∈ modifiers ->
  performCubeMove (faceToken f +:+ x) (performCubeMove (faceToken (opposite f) +:+ y) s)
  = performCubeMove (faceToken (opposite f) +:+ y) (performCubeMove (faceToken f +:+ x) s).
Proof.
  intros Hx Hy.
  assert (Hcases : forall z, z ∈ modifiers -> z = "" \/ z = "'" \/ z = "2").
  { intros z Hz. unfold modifiers in Hz.
    repeat (apply elem_of_cons in Hz as [->|Hz]; [tauto|]).
    by apply elem_of_nil in Hz. }
  destruct (Hcases x Hx) as [->|[->| ->]], (Hcases y Hy) as [->|[->| ->]];
    destruct f; cbv [opposite]; run_switch; name_stickers s; vm_compute; reflexivity.
Qed.

Lemma opposite_faces_commute_witness :
  performCubeMove "R'" (performCubeMove "L2" (rotateU solvedCube))
  = performCubeMove "L2" (performCubeMove "R'" (rotateU solvedCube)).
Proof.
  apply (opposite_faces_commute R "'" "2" (rotateU solvedCube));
    vm_compute; repeat constructor.
Defined.

(** X5. A turn of a face, with any modifier, changes no sticker of the
    opposite face. *)
Theorem turn_keeps_opposite_face (f : faceName) (x : string) (s : cubeState) :
  x ∈ modifiers ->
  getFace (performCubeMove (faceToken f +:+ x) s) (opposite f) = getFace s (opposite f).
Proof.
  intros Hx. unfold modifiers in Hx.
  repeat (apply elem_of_cons in Hx as [->|Hx];
          [destruct f; cbv [opposite]; run_switch; name_stickers s; vm_compute; reflexivity|]).
  by apply elem_of_nil in Hx.
Qed.

Lemma turn_keeps_opposite_face_witness :
  getFace (performCubeMove "U2" (rotateR solvedCube)) D = getFace (rotateR solvedCube) D.
Proof.
  apply (turn_keeps_opposite_face U "2" (rotateR solvedCube)).
  vm_compute. repeat constructor.
Defined.

(** X6. A token that [isValidMove] rejects matches no case of the switch:
    [performCubeMove] leaves the cube as it is. *)
Theorem performCubeMove_unknown_token (move : string) (s : cubeState) :
  isValidMove move = false -> performCubeMove move s = s.
Proof.
  intros H. unfold performCubeMove.
  repeat match goal with
         | |- context [String.eqb move ?token] =>
             destruct (String.eqb_spec move token) as [->|_];
             [exfalso; vm_compute in H; discriminate H|]
         end.
  reflexivity.
Qed.

Lemma performCubeMove_unknown_token_witness :
  performCubeMove "R3" (rotateU solvedCube) = rotateU solvedCube /\
  performCubeMove "" (rotateU solvedCube) = rotateU solvedCube /\
  performCubeMove "r" (rotateU solvedCube) = rotateU solvedCube.
Proof.
  split_and!; apply performCubeMove_unknown_token; reflexivity.
Defined.

(** ** Moves and the colour counts *)

Lemma occurrences_cons (k x : Color) (l : list Color) :
  occurrences k (x :: l) = indicator k x + occurrences k l.
Proof.
  unfold occurrences, indicator. rewrite filter_cons.
  by destruct (decide (x = k)).
Qed.

Lemma occurrences_nil (k : Color) : occurrences k [] = 0.
Proof. reflexivity. Qed.

(** Writes both sticker lists out and compares the sums of indicators. *)
Ltac count_stickers s :=
  name_stickers s;
  match goal with
  | |- occurrences ?k ?l1 = occurrences ?k ?l2 =>
      let l1' := eval vm_compute in l1 in
      let l2' := eval vm_compute in l2 in
      change (occurrences k l1' = occurrences k l2')
  end;
  rewrite !occurrences_cons, !occurrences_nil; lia.

Lemma rotateR_occurrences k s :
  occurrences k (stickers (rotateR s)) = occurrences k (stickers s).
Proof. count_stickers s. Qed.
Lemma rotateRPrime_occurrences k s :
  occurrences k (stickers (rotateRPrime s)) = occurrences k (stickers s).
Proof. count_stickers s. Qed.
Lemma rotateL_occurrences k s :
  occurrences k (stickers (rotateL s)) = occurrences k (stickers s).
Proof. count_stickers s. Qed.
Lemma rotateLPrime_occurrences k s :
  occurrences k (stickers (rotateLPrime s)) = occurrences k (stickers s).
Proof. count_stickers s. Qed.
Lemma rotateU_occurrences k s :
  occurrences k (stickers (rotateU s)) = occurrences k (stickers s).
Proof. count_stickers s. Qed.
Lemma rotateUPrime_occurrences k s :
  occurrences k (stickers (rotateUPrime s)) = occurrences k (stickers s).
Proof. count_stickers s. Qed.
Lemma rotateD_occurrences k s :
  occurrences k (stickers (rotateD s)) = occurrences k (stickers s).
Proof. count_stickers s. Qed.
Lemma rotateDPrime_occurrences k s :
  occurrences k (stickers (rotateDPrime s)) = occurrences k (stickers s).
Proof. count_stickers s. Qed.
Lemma rotateF_occurrences k s :
  occurrences k (stickers (rotateF s)) = occurrences k (stickers s).
Proof. count_stickers s. Qed.
Lemma rotateFPrime_occurrences k s :
  occurrences k (stickers (rotateFPrime s)) = occurrences k (stickers s).
Proof. count_stickers s. Qed.
Lemma rotateB_occurrences k s :
  occurrences k (stickers (rotateB s)) = occurrences k (stickers s).
Proof. count_stickers s. Qed.
Lemma rotateBPrime_occurrences k s :
  occurrences k (stickers (rotateBPrime s)) = occurrences k (stickers s).
Proof. count_stickers s. Qed.

(** Whatever the token, a move keeps the number of stickers of each value. *)
Lemma performCubeMove_occurrences (move : string) (k : Color) (s : cubeState) :
  occurrences k (stickers (performCubeMove move s)) = occurrences k (stickers s).
Proof.
  unfold performCubeMove.
  repeat match goal with
         | |- context [String.eqb move ?token] => destruct (String.eqb move token)
         end;
    by rewrite ?rotateR_occurrences, ?rotateRPrime_occurrences, ?rotateL_occurrences,
      ?rotateLPrime_occurrences, ?rotateU_occurrences, ?rotateUPrime_occurrences,
      ?rotateD_occurrences, ?rotateDPrime_occurrences, ?rotateF_occurrences,
      ?rotateFPrime_occurrences, ?rotateB_occurrences, ?rotateBPrime_occurrences.
Qed.

Lemma occurrences_positive (k : Color) (l : list Color) :
  k ∈ l -> 0 < occurrences k l.
Proof.
  intros Hk. destruct (occurrences k l) eqn:Hzero; [|lia].
  exfalso. induction l as [|x l IH]; [by apply elem_of_nil in Hk|].
  rewrite occurrences_cons in Hzero. unfold indicator in Hzero.
  apply elem_of_cons in Hk as [->|Hk].
  - rewrite decide_True in Hzero by done. lia.
  - apply IH; [done|lia].
Qed.

Lemma totalSet_occurrences (c : cubeState) :
  totalSet c + occurrences unset (stickers c) = 54.
Proof.
  unfold totalSet. rewrite set_and_unset. apply stickers_length.
Qed.

Lemma colorCount_occurrences (c : cubeState) (k : Color) :
  colorCount c k = occurrences k (stickers c).
Proof. reflexivity. Qed.

(** Validity in terms of the counts alone. *)
Lemma isValidCube_Valid_iff (c : cubeState) :
  isValidCube c = Valid <->
  totalSet c = 54 /\
  forall k, k ≠ unset -> 0 < colorCount c k -> colorCount c k = 9.
Proof.
  split.
  - rewrite isValidCube_validateSpec. unfold validateSpec.
    destruct (decide (totalSet c ≠ 54)) as [|Htotal]; [done|].
    destruct (find _ (presentColors c)) as [k|] eqn:Hfind; [done|]. intros _.
    split; [lia|]. intros k Hset Hpos.
    assert (Hk : k ∈ presentColors c).
    { apply presentColors_set. split; [done|].
      apply occurrences_present. by rewrite <- colorCount_occurrences. }
    apply list_elem_of_In in Hk. apply (find_none _ _ Hfind) in Hk.
    apply bool_decide_eq_false_1 in Hk. lia.
  - intros [Htotal Hnine]. apply isValidCube_nine_each;
      rewrite countColors_histogram; cbn [fst snd]; [done|].
    apply Forall_fmap, Forall_forall. intros k Hk. cbn [compose snd].
    apply presentColors_set in Hk as [Hset Hin]. apply Hnine; [done|].
    rewrite colorCount_occurrences. by apply occurrences_positive.
Qed.

(** X7. Whatever the token, [performCubeMove] keeps the count of every
    sticker value and the number of set stickers, so the cube is valid
    after the move exactly when it was valid before. *)
Theorem performCubeMove_keeps_counts (move : string) (s : cubeState) :
  (forall k, colorCount (performCubeMove move s) k = colorCount s k) /\
  totalSet (performCubeMove move s) = totalSet s /\
  (isValidCube (performCubeMove move s) = Valid <-> isValidCube s = Valid).
Proof.
  assert (Hcount : forall k, colorCount (performCubeMove move s) k = colorCount s k).
  { intros k. rewrite !colorCount_occurrences. apply performCubeMove_occurrences. }
  assert (Htotal : totalSet (performCubeMove move s) = totalSet s).
  { pose proof (totalSet_occurrences (performCubeMove move s)) as H1.
    pose proof (totalSet_occurrences s) as H2.
    rewrite performCubeMove_occurrences in H1. lia. }
  split; [done|]. split; [done|].
  rewrite !isValidCube_Valid_iff, Htotal.
  split; intros [H54 Hnine]; (split; [done|]); intros k Hset Hpos.
  - rewrite <- Hcount. apply Hnine; [done|]. by rewrite Hcount.
  - rewrite Hcount. apply Hnine; [done|]. by rewrite <- Hcount.
Qed.

(** ** Notation helpers *)

(** X8. On the eighteen tokens [invertMove] stays among the tokens and is
    its own inverse; a token is fixed by it exactly when it is a half
    turn. *)
Theorem invertMove_involution (move : string) :
  isValidMove move = true ->
  isValidMove (invertMove move) = true /\
  invertMove (invertMove move) = move /\
  (invertMove move = move <-> endsWith move "2"%char = true).
Proof.
  intros H. apply isValidMove_validMoves in H. vm_compute in H.
  repeat (apply elem_of_cons in H as [->|H]; [by vm_compute|]).
  by apply elem_of_nil in H.
Qed.

Lemma invertMove_involution_witness :
  isValidMove (invertMove "D'") = true /\
  invertMove (invertMove "D'") = "D'" /\
  (invertMove "D'" = "D'" <-> endsWith "D'" "2"%char = true).
Proof. apply (invertMove_involution "D'"). reflexivity. Defined.

(** One move of a scramble is a token. *)
Lemma scramble_move_valid (r1 r2 : Q) :
  (0 <= r1)%Q -> (r1 < 1)%Q -> (0 <= r2)%Q -> (r2 < 1)%Q ->
  isValidMove
    (default "undefined" (faceLetters !! floorMul r1 (length faceLetters))
     +:+ default "undefined" (modifiers !! floorMul r2 (length modifiers))) = true.
Proof.
  intros H1 H1' H2 H2'.
  pose proof (floorMul_lt r1 (length faceLetters) H1 H1') as Hface.
  pose proof (floorMul_lt r2 (length modifiers) H2 H2') as Hmod.
  cbn [length faceLetters modifiers] in *.
  destruct (floorMul r1 6) as [|[|[|[|[|[|?]]]]]]; [..|lia];
    (destruct (floorMul r2 3) as [|[|[|?]]]; [..|lia]); reflexivity.
Qed.

Lemma scrambleFrom_shape (rnd : nat -> Q) (calls n : nat) :
  unitDraws rnd ->
  length (scrambleFrom rnd calls n) = n /\
  Forall (fun move => isValidMove move = true) (scrambleFrom rnd calls n).
Proof.
  intros Hrnd. revert calls. induction n as [|n IH]; intros calls.
  - split; [done|constructor].
  - destruct (IH (S (S calls))) as [Hlen Hall]. cbn [scrambleFrom]. split.
    + cbn [length]. by rewrite Hlen.
    + constructor; [|done].
      apply scramble_move_valid; apply Hrnd.
Qed.

(** X9. For draws of the unit interval, [generateRandomScramble] returns
    exactly as many moves as asked for, none for a length of 0, and each
    of them is a token [isValidMove] accepts. *)
Theorem generateRandomScramble_shape (rnd : nat -> Q) (n : nat) :
  unitDraws rnd ->
  length (generateRandomScramble rnd n) = n /\
  Forall (fun move => isValidMove move = true) (generateRandomScramble rnd n) /\
  generateRandomScramble rnd 0 = [].
Proof.
  intros Hrnd. destruct (scrambleFrom_shape rnd 0 n Hrnd) as [Hlen Hall].
  by repeat split.
Qed.

Lemma generateRandomScramble_shape_witness :
  length (generateRandomScramble halfDraws 20) = 20 /\
  Forall (fun move => isValidMove move = true) (generateRandomScramble halfDraws 20) /\
  generateRandomScramble halfDraws 0 = [].
Proof. apply (generateRandomScramble_shape halfDraws 20). exact halfDraws_unit. Defined.

(** ** Playback *)

Lemma applyMoves_snoc (moves : list string) (move : string) (s : cubeState) :
  applyMoves (moves ++ [move]) s = performCubeMove move (applyMoves moves s).
Proof. unfold applyMoves. by rewrite foldl_app. Qed.

(** Inside its guard, [nextStep] applies the move under the cursor to the
    working cube and moves the cursor on by one. *)
Lemma nextStep_fields (a : app) :
  (0 <= currentStep a < Z.of_nat (length (solutionSteps a)))%Z ->
  exists move,
    solutionSteps a !! Z.to_nat (currentStep a) = Some move /\
    currentStep (nextStep a) = (currentStep a + 1)%Z /\
    cube3D (nextStep a) = performCubeMove move (cube3D a) /\
    cube (nextStep a) = cube a /\
    solutionSteps (nextStep a) = solutionSteps a.
Proof.
  intros Hc.
  destruct (lookup_lt_is_Some_2 (solutionSteps a) (Z.to_nat (currentStep a)))
    as [move Hmove]; [lia|].
  exists move. split; [done|]. unfold nextStep.
  destruct (Z.ltb_spec (currentStep a) (Z.of_nat (length (solutionSteps a)))); [|lia].
  rewrite updateStepDisplay_currentStep, updateStepDisplay_cube3D,
    updateStepDisplay_cube, updateStepDisplay_solutionSteps.
  unfold performStepAt. rewrite Hmove. by destruct a.
Qed.

(** Outside its guard, [nextStep] does nothing. *)
Lemma nextStep_at_end (a : app) :
  (Z.of_nat (length (solutionSteps a)) <= currentStep a)%Z -> nextStep a = a.
Proof.
  intros Hc. unfold nextStep.
  by destruct (Z.ltb_spec (currentStep a) (Z.of_nat (length (solutionSteps a)))); [lia|].
Qed.

Lemma nextStep_inSync (a : app) : inSync a -> inSync (nextStep a).
Proof.
  intros [Hrange Hsync].
  destruct (Z.lt_ge_cases (currentStep a) (Z.of_nat (length (solutionSteps a))))
    as [Hlt|Hge]; [|by rewrite nextStep_at_end].
  unfold cursorInRange in Hrange.
  destruct (nextStep_fields a) as (move & Hmove & Hc & Hc3 & Hcube & Hsteps); [lia|].
  unfold inSync, cursorInRange. rewrite Hc, Hc3, Hcube, Hsteps. split; [lia|].
  replace (Z.to_nat (currentStep a + 1)) with (S (Z.to_nat (currentStep a))) by lia.
  by rewrite (take_S_r _ _ _ Hmove), applyMoves_snoc, Hsync.
Qed.

Lemma goToStep_inSync (a : app) (z : Z) : inSync a -> inSync (goToStep z a).
Proof.
  intros Hsync.
  destruct (Z.lt_ge_cases z 0) as [Hneg|Hpos];
    [by rewrite goToStep_out_of_range by lia|].
  destruct (Z.lt_ge_cases (Z.of_nat (length (solutionSteps a))) z) as [Hbig|Hsmall];
    [by rewrite goToStep_out_of_range by lia|].
  rewrite goToStep_in_range by lia. unfold inSync, cursorInRange.
  rewrite updateStepDisplay_currentStep, updateStepDisplay_cube3D,
    updateStepDisplay_cube, updateStepDisplay_solutionSteps.
  by destruct a.
Qed.

Lemma displaySolution_fields (solution : list string) (a : app) :
  currentStep (displaySolution solution a) = 0%Z /\
  cube3D (displaySolution solution a) = cube a /\
  cube (displaySolution solution a) = cube a /\
  solutionSteps (displaySolution solution a) = solution.
Proof.
  unfold displaySolution. destruct (0 <? length solution).
  - rewrite updateStepDisplay_currentStep, updateStepDisplay_cube3D,
      updateStepDisplay_cube, updateStepDisplay_solutionSteps. by destruct a.
  - by destruct a.
Qed.

Lemma displaySolution_inSync (solution : list string) (a : app) :
  inSync (displaySolution solution a).
Proof.
  destruct (displaySolution_fields solution a) as (Hc & Hc3 & Hcube & Hsteps).
  unfold inSync, cursorInRange. rewrite Hc, Hc3, Hcube, Hsteps. split; [lia|done].
Qed.

(** X10. The working cube stays the painted cube with the moves before
    the cursor applied: this holds once a solution is displayed or
    cleared, and [nextStep] and [goToStep], with any argument, keep it. *)
Theorem playback_keeps_in_sync (a : app) :
  (forall solution, inSync (displaySolution solution a)) /\
  inSync (clearSolution a) /\
  (inSync a -> inSync (nextStep a) /\ forall z, inSync (goToStep z a)).
Proof.
  split; [intros solution; apply displaySolution_inSync|].
  split; [by destruct a|].
  intros Hsync. split; [by apply nextStep_inSync|].
  intros z. by apply goToStep_inSync.
Qed.

Lemma playback_keeps_in_sync_witness :
  inSync (nextStep loadedExample) /\ forall z, inSync (goToStep z loadedExample).
Proof.
  apply (proj2 (proj2 (playback_keeps_in_sync loadedExample))).
  split; [unfold cursorInRange; simpl; lia|reflexivity].
Defined.

Lemma nextStep_iter_fields (solution : list string) (a : app) (k : nat) :
  k <= length solution ->
  currentStep (Nat.iter k nextStep (displaySolution solution a)) = Z.of_nat k /\
  cube3D (Nat.iter k nextStep (displaySolution solution a))
  = applyMoves (take k solution) (cube a) /\
  cube (Nat.iter k nextStep (displaySolution solution a)) = cube a /\
  solutionSteps (Nat.iter k nextStep (displaySolution solution a)) = solution.
Proof.
  destruct (displaySolution_fields solution a) as (Hc0 & Hc30 & Hcube0 & Hsteps0).
  induction k as [|k IH]; intros Hk; [done|].
  destruct IH as (Hc & Hc3 & Hcube & Hsteps); [lia|]. rewrite Nat.iter_succ.
  destruct (nextStep_fields (Nat.iter k nextStep (displaySolution solution a)))
    as (move & Hmove & Hc' & Hc3' & Hcube' & Hsteps'); [rewrite Hc, Hsteps; lia|].
  rewrite Hc' , Hc3', Hcube', Hsteps', Hc, Hc3, Hcube, Hsteps.
  rewrite Hc, Hsteps, Nat2Z.id in Hmove.
  split_and!; [lia| |done|done].
  by rewrite (take_S_r _ _ _ Hmove), applyMoves_snoc.
Qed.

(** X11. Pressing next-step [k] times on a freshly displayed solution of
    at least [k] moves puts the cursor at [k] and the working cube at the
    painted cube with the first [k] moves applied, which is where
    [goToStep k] lands; a further press at the end of the sequence changes
    nothing. *)
Theorem nextStep_iter_is_goToStep (solution : list string) (a : app) (k : nat) :
  k <= length solution ->
  currentStep (Nat.iter k nextStep (displaySolution solution a)) = Z.of_nat k /\
  cube3D (Nat.iter k nextStep (displaySolution solution a))
  = applyMoves (take k solution) (cube a) /\
  cube3D (Nat.iter k nextStep (displaySolution solution a))
  = cube3D (goToStep (Z.of_nat k) (displaySolution solution a)) /\
  currentStep (goToStep (Z.of_nat k) (displaySolution solution a)) = Z.of_nat k /\
  nextStep (Nat.iter (length solution) nextStep (displaySolution solution a))
  = Nat.iter (length solution) nextStep (displaySolution solution a).
Proof.
  intros Hk.
  destruct (nextStep_iter_fields solution a k Hk) as (Hc & Hc3 & Hcube & Hsteps).
  destruct (displaySolution_fields solution a) as (Hc0 & Hc30 & Hcube0 & Hsteps0).
  rewrite goToStep_in_range by (rewrite Hsteps0; lia).
  rewrite updateStepDisplay_cube3D, updateStepDisplay_currentStep.
  split_and!; [done|done| |done|].
  - rewrite Hc3. cbn [cube3D withCurrentStep withCube3D].
    by rewrite Hsteps0, Hcube0, Nat2Z.id.
  - destruct (nextStep_iter_fields solution a (length solution)) as (Hc' & _ & _ & Hsteps');
      [done|].
    apply nextStep_at_end. rewrite Hc', Hsteps'. lia.
Qed.

Lemma nextStep_iter_is_goToStep_witness :
  currentStep (Nat.iter 3 nextStep loadedExample) = 3%Z /\
  cube3D (Nat.iter 3 nextStep loadedExample)
  = applyMoves ["R"; "U"; "F'"] solvedCube.
Proof.
  destruct (nextStep_iter_is_goToStep ["R"; "U"; "F'"] solvedApp 3) as (H1 & H2 & _).
  - simpl. lia.
  - split; [exact H1|exact H2].
Defined.

Lemma previousStep_fields (a : app) :
  cube (previousStep a) = cube a /\
  solutionSteps (previousStep a) = solutionSteps a /\
  currentStep (previousStep a)
  = (if (0 <? currentStep a)%Z then currentStep a - 1 else currentStep a)%Z.
Proof.
  unfold previousStep. destruct (0 <? currentStep a)%Z; [|done].
  rewrite updateStepDisplay_cube, updateStepDisplay_solutionSteps,
    updateStepDisplay_currentStep. by destruct a.
Qed.

(** X12. The cursor never leaves the loaded sequence: it is within
    [0, N] once a solution is displayed or cleared, and [nextStep],
    [previousStep] and [goToStep], with any argument, keep it there. *)
Theorem cursor_stays_in_range (a : app) :
  (forall solution, cursorInRange (displaySolution solution a)) /\
  cursorInRange (clearSolution a) /\
  (cursorInRange a ->
   cursorInRange (nextStep a) /\
   cursorInRange (previousStep a) /\
   forall z, cursorInRange (goToStep z a)).
Proof.
  split; [intros solution; apply displaySolution_inSync|].
  split; [by destruct a|].
  unfold cursorInRange. intros Hrange. split; [|split].
  - destruct (Z.lt_ge_cases (currentStep a) (Z.of_nat (length (solutionSteps a))))
      as [Hlt|Hge]; [|rewrite nextStep_at_end by lia; exact Hrange].
    destruct (nextStep_fields a) as (move & _ & Hc & _ & _ & Hsteps); [lia|].
    rewrite Hc, Hsteps. lia.
  - destruct (previousStep_fields a) as (_ & Hsteps & Hc). rewrite Hc, Hsteps.
    destruct (Z.ltb_spec 0 (currentStep a)); lia.
  - intros z.
    destruct (Z.lt_ge_cases z 0) as [Hneg|Hpos];
      [rewrite goToStep_out_of_range by lia; exact Hrange|].
    destruct (Z.lt_ge_cases (Z.of_nat (length (solutionSteps a))) z) as [Hbig|Hsmall];
      [rewrite goToStep_out_of_range by lia; exact Hrange|].
    rewrite goToStep_in_range by lia.
    rewrite updateStepDisplay_currentStep, updateStepDisplay_solutionSteps.
    destruct a. cbn in *. lia.
Qed.

Lemma cursor_stays_in_range_witness :
  cursorInRange (nextStep playedExample) /\
  cursorInRange (previousStep playedExample) /\
  forall z, cursorInRange (goToStep z playedExample).
Proof.
  apply (proj2 (proj2 (cursor_stays_in_range playedExample))).
  unfold cursorInRange. simpl. lia.
Defined.

(** X13. With the cursor inside the sequence, the flags that
    [updateStepDisplay] gives the two step buttons agree with the guards
    of their handlers: the previous-step button is disabled exactly when
    [previousStep] would leave the state as it is, and the next-step
    button exactly when [nextStep] would. *)
Theorem step_buttons_match_guards (a : app) :
  cursorInRange a ->
  (prevDisabled a = true <-> previousStep a = a) /\
  (nextDisabled a = true <-> nextStep a = a).
Proof.
  unfold cursorInRange, prevDisabled, nextDisabled. intros Hrange. split.
  - destruct (Z.eqb_spec (currentStep a) 0) as [Hzero|Hpos].
    + split; [intros _|done]. unfold previousStep. by rewrite Hzero.
    + split; [done|]. intros Hsame.
      pose proof (previousStep_fields a) as (_ & _ & Hc). rewrite Hsame in Hc.
      destruct (Z.ltb_spec 0 (currentStep a)); lia.
  - assert (Hmoved : (currentStep a < Z.of_nat (length (solutionSteps a)))%Z ->
                     nextStep a ≠ a).
    { intros Hlt Hsame.
      destruct (nextStep_fields a) as (move & _ & Hc & _); [lia|].
      rewrite Hsame in Hc. lia. }
    destruct (Z.eqb_spec (currentStep a) 0) as [Hzero|Hpos].
    + destruct (Z.eqb_spec (Z.of_nat (length (solutionSteps a))) 0) as [Hnone|Hsome].
      * split; [intros _|done]. apply nextStep_at_end. lia.
      * split; [done|]. intros Hsame. destruct Hmoved; [lia|done].
    + destruct (Z.eqb_spec (currentStep a) (Z.of_nat (length (solutionSteps a))))
        as [Hend|Hmid].
      * split; [intros _|done]. apply nextStep_at_end. lia.
      * split; [done|]. intros Hsame. destruct Hmoved; [lia|done].
Qed.

Lemma step_buttons_match_guards_witness :
  (prevDisabled loadedExample = true <-> previousStep loadedExample = loadedExample) /\
  (nextDisabled loadedExample = true <-> nextStep loadedExample = loadedExample).
Proof.
  apply (step_buttons_match_guards loadedExample).
  unfold cursorInRange. simpl. lia.
Defined.

(** The closure of [autoSolve], started in step with the painted cube and
    given the runs it needs, stops at the end of the sequence. *)
Lemma executeNext_runs (fuel : nat) (a : app) :
  inSync a ->
  (Z.of_nat (length (solutionSteps a)) - currentStep a <= Z.of_nat fuel)%Z ->
  currentStep (executeNext fuel a) = Z.of_nat (length (solutionSteps a)) /\
  cube3D (executeNext fuel a) = applyMoves (solutionSteps a) (cube a) /\
  cube (executeNext fuel a) = cube a /\
  solutionSteps (executeNext fuel a) = solutionSteps a.
Proof.
  revert a. induction fuel as [|fuel IH]; intros a Hsync Hfuel.
  - destruct Hsync as [Hrange Hsync]. unfold cursorInRange in Hrange. cbn [executeNext].
    split_and!; [lia| |done|done].
    rewrite Hsync, take_ge; [done|lia].
  - cbn [executeNext].
    destruct (Z.ltb_spec (currentStep a) (Z.of_nat (length (solutionSteps a))))
      as [Hlt|Hge].
    + change (updateStepDisplay _) with (updateStepDisplay
        (withCurrentStep (performStepAt (Z.to_nat (currentStep a)) a)
           (currentStep (performStepAt (Z.to_nat (currentStep a)) a) + 1))).
      assert (Hnext : nextStep a = updateStepDisplay
        (withCurrentStep (performStepAt (Z.to_nat (currentStep a)) a)
           (currentStep (performStepAt (Z.to_nat (currentStep a)) a) + 1))).
      { unfold nextStep.
        by destruct (Z.ltb_spec (currentStep a) (Z.of_nat (length (solutionSteps a))));
          [|lia]. }
      rewrite <- Hnext.
      pose proof (nextStep_inSync a Hsync) as Hsync'.
      destruct Hsync as [Hrange _]. unfold cursorInRange in Hrange.
      destruct (nextStep_fields a) as (move & _ & Hc & _ & Hcube & Hsteps); [lia|].
      destruct (IH (nextStep a) Hsync') as (H1 & H2 & H3 & H4); [rewrite Hc, Hsteps; lia|].
      by rewrite H1, H2, H3, H4, Hcube, Hsteps.
    + destruct Hsync as [Hrange Hsync]. unfold cursorInRange in Hrange.
      split_and!; [lia| |done|done].
      rewrite Hsync, take_ge; [done|lia].
Qed.

(** X14. [autoSolve], given at least as many runs of its closure as the
    sequence has moves, ends with the cursor at the end and the working
    cube equal to the painted cube with the whole sequence applied,
    wherever the cursor and the working cube were before; the painted
    cube and the sequence are untouched. *)
Theorem autoSolve_applies_all (fuel : nat) (a : app) :
  length (solutionSteps a) <= fuel ->
  currentStep (autoSolve fuel a) = Z.of_nat (length (solutionSteps a)) /\
  cube3D (autoSolve fuel a) = applyMoves (solutionSteps a) (cube a) /\
  cube (autoSolve fuel a) = cube a /\
  solutionSteps (autoSolve fuel a) = solutionSteps a.
Proof.
  intros Hfuel. unfold autoSolve.
  assert (Hstart : updateStepDisplay (copyTo3DCube (withCurrentStep a 0))
                   = copyTo3DCube (withCurrentStep a 0)) by reflexivity.
  rewrite Hstart.
  destruct (executeNext_runs fuel (copyTo3DCube (withCurrentStep a 0)))
    as (H1 & H2 & H3 & H4).
  - split; [unfold cursorInRange; cbn; lia|by destruct a].
  - cbn. lia.
  - by destruct a.
Qed.

Lemma autoSolve_applies_all_witness :
  currentStep (autoSolve 3 (previousStep playedExample)) = 3%Z /\
  cube3D (autoSolve 3 (previousStep playedExample))
  = applyMoves ["R"; "U"; "F'"] solvedCube.
Proof.
  destruct (autoSolve_applies_all 3 (previousStep playedExample)) as (H1 & H2 & _).
  - simpl. lia.
  - split; [exact H1|exact H2].
Defined.

(** ** Painting and resetting *)

(** Reading a sticker after a write: the written value at the written
    position, the old value anywhere else. *)
Lemma get_set (s : cubeState) (f f' : faceName) (r r' c c' : idx) (v : Color) :
  get (set s f r c v) f' r' c'
  = if decide ((f', r', c') = (f, r, c)) then v else get s f' r' c'.
Proof. name_stickers s. destruct f, f', r, r', c, c'; reflexivity. Qed.

(** X15. [colorSquare] paints the chosen square with the selected colour
    and no other square, copies the painted cube to the working cube, and
    clears the solution: no steps, cursor 0, not playing. *)
Theorem colorSquare_paints_one (selectedColor : Color) (f : faceName) (r c : idx)
    (a : app) :
  get (cube (colorSquare selectedColor f r c a)) f r c = selectedColor /\
  (forall f' r' c', (f', r', c') ≠ (f, r, c) ->
     get (cube (colorSquare selectedColor f r c a)) f' r' c' = get (cube a) f' r' c') /\
  cube3D (colorSquare selectedColor f r c a) = cube (colorSquare selectedColor f r c a) /\
  solutionSteps (colorSquare selectedColor f r c a) = [] /\
  currentStep (colorSquare selectedColor f r c a) = 0%Z /\
  isPlaying (colorSquare selectedColor f r c a) = false.
Proof.
  assert (Hcube : cube (colorSquare selectedColor f r c a)
                  = set (cube a) f r c selectedColor) by reflexivity.
  rewrite Hcube. split_and!; try reflexivity.
  - by rewrite get_set, decide_True.
  - intros f' r' c' Hother. by rewrite get_set, decide_False.
Qed.

(** X16. [resetCube] leaves every sticker of the painted cube and of the
    working cube ['empty'] and no solution, whatever the state before;
    validation then reports 0 coloured squares and the encoding throws. *)
Theorem resetCube_empties (a : app) :
  cube (resetCube a) = emptyCube /\
  cube3D (resetCube a) = emptyCube /\
  solutionSteps (resetCube a) = [] /\
  currentStep (resetCube a) = 0%Z /\
  isValidCube (cube (resetCube a)) = IncompleteError 0 /\
  toKociembaString (cube (resetCube a)) = Thrown "Invalid color 'empty' found in cube".
Proof.
  assert (Hcube : cube (resetCube a) = emptyCube).
  { destruct a as [c c3 steps cursor playing]. name_stickers c. reflexivity. }
  assert (Hcopy : cube3D (resetCube a) = cube (resetCube a)) by reflexivity.
  rewrite Hcopy, Hcube. by repeat split.
Qed.

(** ** Validation, encoding and solving together *)

Lemma get_in_stickers (c : cubeState) (f : faceName) (r cc : idx) :
  get c f r cc ∈ stickers c.
Proof.
  rewrite stickers_positions.
  apply (list_elem_of_fmap_2 (stickerAt c) _ (f, r, cc)), paintOrder_complete.
Qed.

(** A valid cube has no ['empty'] sticker. *)
Lemma valid_all_set (c : cubeState) :
  isValidCube c = Valid -> forall f r cc, get c f r cc ≠ unset.
Proof.
  intros Hvalid f r cc Hunset.
  apply isValidCube_Valid_iff in Hvalid as [Htotal _].
  pose proof (totalSet_occurrences c) as Hsum.
  pose proof (occurrences_positive unset (stickers c)) as Hpos.
  rewrite <- Hunset in Hpos at 1. specialize (Hpos (get_in_stickers c f r cc)). lia.
Qed.

Lemma set_is_mapped (k : Color) : k ≠ unset -> colorMap k ≠ None.
Proof. by destruct k. Qed.

(** Behind the validation gate the encoding is the letters of the
    stickers. *)
Lemma valid_encoding (c : cubeState) :
  isValidCube c = Valid ->
  Forall (fun k => colorMap k ≠ None) (stickerAt c <$> kociembaPositions) /\
  toKociembaString c = Returned (lettersOf (stickerAt c <$> kociembaPositions)).
Proof.
  intros Hvalid.
  assert (Hall : Forall (fun k => colorMap k ≠ None) (stickerAt c <$> kociembaPositions)).
  { apply kociemba_all_mapped. intros f r cc. by apply set_is_mapped, valid_all_set. }
  split; [done|].
  unfold toKociembaString. by rewrite kociemba_visits, encodeFrom_mapped.
Qed.

(** X17. The encoder cannot throw behind the validation gate: on a cube
    that [isValidCube] accepts, [toKociembaString] returns a string, of 54
    characters. *)
Theorem valid_cube_encodes (c : cubeState) :
  isValidCube c = Valid ->
  exists str, toKociembaString c = Returned str /\ String.length str = 54.
Proof.
  intros Hvalid. destruct (valid_encoding c Hvalid) as [Hall Hencode].
  exists (lettersOf (stickerAt c <$> kociembaPositions)).
  split; [done|]. rewrite lettersOf_length by done. by rewrite length_fmap.
Qed.

Lemma valid_cube_encodes_witness :
  exists str, toKociembaString (rotateU solvedCube) = Returned str /\
              String.length str = 54.
Proof. apply (valid_cube_encodes (rotateU solvedCube)). vm_compute. reflexivity. Defined.

(** A returned encoding is the letters of the stickers, which all have
    one. *)
Lemma toKociembaString_returned (c : cubeState) (str : string) :
  toKociembaString c = Returned str ->
  Forall (fun k => colorMap k ≠ None) (stickerAt c <$> kociembaPositions) /\
  str = lettersOf (stickerAt c <$> kociembaPositions).
Proof.
  unfold toKociembaString. rewrite kociemba_visits. intros Hret.
  destruct (first_unmapped (stickerAt c <$> kociembaPositions))
    as [Hall|(l1 & k & l2 & Hsplit & Hl1 & Hk)].
  - split; [done|]. rewrite encodeFrom_mapped in Hret by done. by injection Hret.
  - rewrite Hsplit, (encodeFrom_unmapped l1 l2 k "" Hl1 Hk) in Hret. discriminate Hret.
Qed.

(** The letters determine the stickers. *)
Lemma lettersOf_inj (l1 l2 : list Color) :
  Forall (fun k => colorMap k ≠ None) l1 ->
  Forall (fun k => colorMap k ≠ None) l2 ->
  lettersOf l1 = lettersOf l2 -> l1 = l2.
Proof.
  intros H1. revert l2. induction H1 as [|k1 l1 Hk1 _ IH]; intros l2 H2 Heq.
  - destruct H2 as [|k2 l2 Hk2 _]; [done|]. cbn [lettersOf foldr] in Heq.
    destruct (letterOf_mapped k2 Hk2) as (f & a & _ & _ & Hletter).
    rewrite Hletter in Heq. discriminate Heq.
  - destruct H2 as [|k2 l2 Hk2 H2]; cbn [lettersOf foldr] in Heq.
    + destruct (letterOf_mapped k1 Hk1) as (f & a & _ & _ & Hletter).
      rewrite Hletter in Heq. discriminate Heq.
    + assert (Hhead : k1 = k2 /\ lettersOf l1 = lettersOf l2).
      { unfold lettersOf. destruct k1, k2; try done; by injection Heq. }
      destruct Hhead as [-> Htail]. f_equal. by apply IH.
Qed.

(** X18. The facelet string determines the cube: two cubes with the same
    returned encoding are the same cube. *)
Theorem toKociembaString_injective (c1 c2 : cubeState) (str : string) :
  toKociembaString c1 = Returned str ->
  toKociembaString c2 = Returned str ->
  c1 = c2.
Proof.
  intros [Hall1 Hstr1]%toKociembaString_returned [Hall2 Hstr2]%toKociembaString_returned.
  assert (Hlists : stickerAt c1 <$> kociembaPositions = stickerAt c2 <$> kociembaPositions).
  { apply lettersOf_inj; [done|done|congruence]. }
  clear -Hlists. name_stickers c1. name_stickers c2.
  vm_compute in Hlists. by simplify_eq.
Qed.

Lemma toKociembaString_injective_witness :
  rotateU (rotateU (rotateU (rotateU solvedCube))) = solvedCube.
Proof.
  apply (toKociembaString_injective _ _
           "UUUUUUUUURRRRRRRRRFFFFFFFFFDDDDDDDDDLLLLLLLLLBBBBBBBBB");
    vm_compute; reflexivity.
Defined.

Lemma valid_true (c : cubeState) :
  valid (isValidCube c) = true <-> isValidCube c = Valid.
Proof. by destruct (isValidCube c). Qed.

(** X19. [solveCube] changes nothing when the painted cube fails
    validation.  On a valid cube the encoding succeeds and is what the
    solver is asked about; the steps displayed are the solver's solution
    when it answers with success and the fallback list otherwise; the
    cursor is 0, the working cube is the painted cube and the painted cube
    is untouched. *)
Theorem solveCube_gate (api : string -> apiReply) (rnd : nat -> Q) (a : app) :
  (isValidCube (cube a) ≠ Valid -> solveCube api rnd a = a) /\
  (isValidCube (cube a) = Valid ->
   exists cubeString,
     toKociembaString (cube a) = Returned cubeString /\
     solutionSteps (solveCube api rnd a)
     = (match api cubeString with
        | Reply true solution _ => solution
        | _ => mockSolution rnd
        end) /\
     currentStep (solveCube api rnd a) = 0%Z /\
     cube3D (solveCube api rnd a) = cube a /\
     cube (solveCube api rnd a) = cube a).
Proof.
  unfold solveCube. split.
  - intros Hinvalid. destruct (valid (isValidCube (cube a))) eqn:Hv; [|done].
    by apply valid_true in Hv.
  - intros Hvalid. rewrite (proj2 (valid_true _) Hvalid).
    destruct (valid_encoding _ Hvalid) as [_ Hencode].
    eexists. split; [exact Hencode|].
    unfold generateSolution, requestSolution. rewrite Hencode.
    destruct (api _) as [msg|[|] solution error];
      by destruct (displaySolution_fields solution a) as (-> & -> & -> & ->)
      || by destruct (displaySolution_fields (mockSolution rnd) a) as (-> & -> & -> & ->).
Qed.

Lemma solveCube_gate_witness :
  solveCube offlineApi halfDraws initialApp = initialApp /\
  (exists cubeString,
     toKociembaString (cube solvedApp) = Returned cubeString /\
     solutionSteps (solveCube offlineApi halfDraws solvedApp)
     = (match offlineApi cubeString with
        | Reply true solution _ => solution
        | _ => mockSolution halfDraws
        end) /\
     currentStep (solveCube offlineApi halfDraws solvedApp) = 0%Z /\
     cube3D (solveCube offlineApi halfDraws solvedApp) = cube solvedApp /\
     cube (solveCube offlineApi halfDraws solvedApp) = cube solvedApp).
Proof.
  split.
  - apply (proj1 (solveCube_gate offlineApi halfDraws initialApp)).
    vm_compute. discriminate.
  - apply (proj2 (solveCube_gate offlineApi halfDraws solvedApp)).
    vm_compute. reflexivity.
Defined.

(** X20. When some square of the painted cube is still ['empty'], the
    encoding throws before any request is made, and [generateSolution]
    returns the fallback list whatever the solver would have answered. *)
Theorem generateSolution_unpainted (api : string -> apiReply) (rnd : nat -> Q)
    (a : app) (f : faceName) (r c : idx) :
  get (cube a) f r c = unset ->
  (exists msg, toKociembaString (cube a) = Thrown msg) /\
  generateSolution api rnd a = Returned (mockSolution rnd).
Proof.
  intros Hunset.
  assert (Hthrown : exists msg, toKociembaString (cube a) = Thrown msg).
  { destruct (toKociembaString (cube a)) as [str|msg] eqn:Hencode; [|by exists msg].
    apply toKociembaString_returned in Hencode as [Hall _].
    rewrite Forall_forall in Hall. destruct (Hall unset); [|done].
    rewrite <- Hunset.
    apply (list_elem_of_fmap_2 (stickerAt (cube a)) _ (f, r, c)), kociembaPositions_complete. }
  split; [done|]. destruct Hthrown as [msg Hmsg].
  unfold generateSolution, requestSolution. by rewrite Hmsg.
Qed.

Lemma generateSolution_unpainted_witness :
  (exists msg, toKociembaString (cube initialApp) = Thrown msg) /\
  generateSolution (fun _ => Reply true ["R"] None) halfDraws initialApp
  = Returned (mockSolution halfDraws).
Proof.
  apply (generateSolution_unpainted _ halfDraws initialApp U i0 i0). reflexivity.
Defined.

(** X21. The loop that paints a scramble and the loop that reads the
    stickers for validation walk the squares in the same order: painting
    54 colours and reading them back gives the same list, and painting
    the stickers of a cube onto any cube gives that cube. *)
Theorem paint_stickers_round_trip (l : list Color) (c c' : cubeState) :
  (length l = 54 -> stickers (paint l c') = l) /\
  paint (stickers c) c' = c.
Proof.
  split; [apply paint_stickers|].
  name_stickers c. vm_compute. reflexivity.
Qed.

Lemma paint_stickers_round_trip_witness :
  stickers (paint assignments emptyCube) = assignments.
Proof.
  apply (proj1 (paint_stickers_round_trip assignments solvedCube emptyCube)).
  reflexivity.
Defined.

(** ** Sequences of moves *)

Lemma applyMoves_cons (move : string) (moves : list string) (s : cubeState) :
  applyMoves (move :: moves) s = applyMoves moves (performCubeMove move s).
Proof. reflexivity. Qed.

Lemma applyMoves_occurrences (moves : list string) (k : Color) (s : cubeState) :
  occurrences k (stickers (applyMoves moves s)) = occurrences k (stickers s).
Proof.
  revert s. induction moves as [|move moves IH]; intros s; [done|].
  by rewrite applyMoves_cons, IH, performCubeMove_occurrences.
Qed.

(** X22. Replaying any list of strings as moves keeps the count of every
    sticker value, so a valid cube stays valid and an invalid one
    invalid. *)
Theorem applyMoves_keeps_counts (moves : list string) (s : cubeState) :
  (forall k, colorCount (applyMoves moves s) k = colorCount s k) /\
  (isValidCube (applyMoves moves s) = Valid <-> isValidCube s = Valid).
Proof.
  assert (Hcount : forall k, colorCount (applyMoves moves s) k = colorCount s k).
  { intros k. rewrite !colorCount_occurrences. apply applyMoves_occurrences. }
  assert (Htotal : totalSet (applyMoves moves s) = totalSet s).
  { pose proof (totalSet_occurrences (applyMoves moves s)) as H1.
    pose proof (totalSet_occurrences s) as H2.
    rewrite applyMoves_occurrences in H1. lia. }
  split; [done|].
  rewrite !isValidCube_Valid_iff, Htotal.
  split; intros [H54 Hnine]; (split; [done|]); intros k Hset Hpos.
  - rewrite <- Hcount. apply Hnine; [done|]. by rewrite Hcount.
  - rewrite Hcount. apply Hnine; [done|]. by rewrite <- Hcount.
Qed.

(** X23. A sequence of tokens that avoids B and B' is undone by the
    sequence of its inverted tokens in reverse order. *)
Theorem inverted_sequence_undoes (moves : list string) (s : cubeState) :
  Forall (fun move => isValidMove move = true /\ move <> "B" /\ move <> "B'") moves ->
  applyMoves (invertMove <$> reverse moves) (applyMoves moves s) = s.
Proof.
  intros Hmoves. revert s.
  induction Hmoves as [|move moves (Hvalid & HB & HB') _ IH]; intros s; [done|].
  rewrite reverse_cons, fmap_app, applyMoves_cons. cbn [fmap list_fmap].
  rewrite applyMoves_snoc, IH. by apply invertMove_undoes_except_B.
Qed.

Lemma inverted_sequence_undoes_witness :
  applyMoves ["B2"; "F"; "U'"; "R'"] (applyMoves ["R"; "U"; "F'"; "B2"] solvedCube)
  = solvedCube.
Proof.
  apply (inverted_sequence_undoes ["R"; "U"; "F'"; "B2"] solvedCube).
  repeat (constructor; [split; [reflexivity|split; discriminate]|]). constructor.
Defined.

(** ** Automatic playback *)

(** Inside its guard, [nextStep] drops the playing flag exactly when it
    reaches the end of the sequence. *)
Lemma nextStep_isPlaying (a : app) :
  (0 <= currentStep a < Z.of_nat (length (solutionSteps a)))%Z ->
  isPlaying (nextStep a)
  = if (currentStep a + 1 =? Z.of_nat (length (solutionSteps a)))%Z
    then false else isPlaying a.
Proof.
  intros Hc. unfold nextStep.
  destruct (Z.ltb_spec (currentStep a) (Z.of_nat (length (solutionSteps a)))); [|lia].
  destruct a as [c c3 steps cursor playing]. cbn [currentStep solutionSteps] in *.
  unfold performStepAt, updateStepDisplay. cbn [solutionSteps].
  destruct (steps !! Z.to_nat cursor); cbn;
    destruct (Z.eqb_spec (cursor + 1) 0); try lia;
    by destruct (Z.eqb_spec (cursor + 1) (Z.of_nat (length steps))).
Qed.

Lemma playTicks_run (n : nat) (a : app) :
  inSync a -> isPlaying a = true ->
  (currentStep a < Z.of_nat (length (solutionSteps a)))%Z ->
  (Z.of_nat (length (solutionSteps a)) - currentStep a <= Z.of_nat n)%Z ->
  isPlaying (playTicks n a) = false /\
  currentStep (playTicks n a) = Z.of_nat (length (solutionSteps a)) /\
  cube3D (playTicks n a) = applyMoves (solutionSteps a) (cube a) /\
  cube (playTicks n a) = cube a.
Proof.
  revert a. induction n as [|n IH]; intros a Hsync Hplaying Hlt Hfuel; [lia|].
  cbn [playTicks]. rewrite Hplaying. unfold playTick.
  destruct (Z.ltb_spec (currentStep a) (Z.of_nat (length (solutionSteps a)))); [|lia].
  pose proof (nextStep_inSync a Hsync) as Hsync'.
  destruct Hsync as [Hrange _]. unfold cursorInRange in Hrange.
  pose proof (nextStep_isPlaying a) as Hflag.
  destruct (nextStep_fields a) as (move & _ & Hc & _ & Hcube & Hsteps); [lia|].
  destruct (Z.eqb_spec (currentStep a + 1) (Z.of_nat (length (solutionSteps a))))
    as [Hend|Hmore].
  - assert (Hstop : playTicks n (nextStep a) = nextStep a).
    { destruct n; [done|]. cbn [playTicks]. by rewrite Hflag by lia. }
    rewrite Hstop. destruct Hsync' as [_ Hsync'].
    rewrite Hsync', Hc, Hsteps, Hcube, Hflag by lia.
    split_and!; [done|lia| |done]. rewrite take_ge; [done|lia].
  - destruct (IH (nextStep a)) as (H1 & H2 & H3 & H4);
      [done|by rewrite Hflag, Hplaying by lia|rewrite Hc, Hsteps; lia
      |rewrite Hc, Hsteps; lia|].
    by rewrite H1, H2, H3, H4, Hsteps, Hcube.
Qed.

(** X24. Started before the end of the sequence with the working cube in
    step, automatic playback stops by itself: after enough firings of its
    timer the playing flag is down, the cursor is at the end and the
    working cube is the painted cube with the whole sequence applied.
    Started at the end, [startPlaying] rewinds the cursor to 0 and leaves
    the working cube as it is. *)
Theorem playback_runs_to_end (n : nat) (a : app) :
  (inSync a ->
   (currentStep a < Z.of_nat (length (solutionSteps a)))%Z ->
   (Z.of_nat (length (solutionSteps a)) - currentStep a <= Z.of_nat n)%Z ->
   isPlaying (playTicks n (startPlaying a)) = false /\
   currentStep (playTicks n (startPlaying a)) = Z.of_nat (length (solutionSteps a)) /\
   cube3D (playTicks n (startPlaying a)) = applyMoves (solutionSteps a) (cube a)) /\
  ((Z.of_nat (length (solutionSteps a)) <= currentStep a)%Z ->
   currentStep (startPlaying a) = 0%Z /\
   cube3D (startPlaying a) = cube3D a /\
   isPlaying (startPlaying a) = true).
Proof.
  split.
  - intros Hsync Hlt Hfuel.
    assert (Hstart : startPlaying a = withIsPlaying a true).
    { unfold startPlaying.
      by destruct (Z.leb_spec (Z.of_nat (length (solutionSteps a))) (currentStep a));
        [lia|]. }
    rewrite Hstart.
    destruct (playTicks_run n (withIsPlaying a true)) as (H1 & H2 & H3 & _);
      [by destruct a|by destruct a|by destruct a|by destruct a|].
    rewrite H1, H2, H3. by destruct a.
  - intros Hend. unfold startPlaying.
    destruct (Z.leb_spec (Z.of_nat (length (solutionSteps a))) (currentStep a)); [|lia].
    by destruct a.
Qed.

Lemma playback_runs_to_end_witness :
  (isPlaying (playTicks 3 (startPlaying loadedExample)) = false /\
   currentStep (playTicks 3 (startPlaying loadedExample)) = 3%Z /\
   cube3D (playTicks 3 (startPlaying loadedExample))
   = applyMoves ["R"; "U"; "F'"] solvedCube) /\
  (currentStep (startPlaying playedExample) = 0%Z /\
   cube3D (startPlaying playedExample) = cube3D playedExample /\
   isPlaying (startPlaying playedExample) = true).
Proof.
  split.
  - apply (proj1 (playback_runs_to_end 3 loadedExample)).
    + split; [unfold cursorInRange; simpl; lia|reflexivity].
    + simpl. lia.
    + simpl. lia.
  - apply (proj2 (playback_runs_to_end 3 playedExample)). simpl. lia.
Defined.
